(** * Payment channels (x/paychan): the keeper, embedded and verified

    A shallow embedding of [internal/x/paychan/keeper.go].  The keeper
    is written against three collaborators it does not own: the
    cosmos-sdk coin arithmetic ([sdk.Coins]), the bank keeper
    ([bank.Keeper]) and the wire codec.  Their sources are not part of
    this repository.  The first two are modelled here after the
    library's [types/coin.go] and [x/bank/keeper.go], over
    mathematical integers: a sum too large for the library's amounts
    is outside the model, and so are failures of the store itself.
    The codec is an interface ([Codec]).  The keeper names the fields
    of [Paychan] in lower case, so the program's own codec, which
    works by reflection, sees none of them: [codec_drops_fields] is
    its law, and [amino.cdc] an instance to compute with.

    Go values are represented as follows: [[]byte] and [sdk.Address]
    are [list byte], [string] is [string], [int64] is [Z] (the only
    arithmetic the keeper does on it is written with its wrap-around),
    a coin amount is [Z].  A keeper method is a function in the monad [M]:
    it takes the context (store and accounts), may panic, and
    otherwise returns its Go results together with the new context. *)

From Stdlib Require Import ZArith List Bool Lia.
From Stdlib Require Import Strings.String Strings.Ascii Strings.Byte.
From Stdlib Require Import Sorting.Sorted Structures.OrderedTypeEx.
From stdpp Require Import base option list countable gmap strings.

Local Open Scope Z_scope.

(** Go's [[]byte]. *)
Abbreviation bytes := (list byte).

(* ===================================================================== *)
(** ** Go's [strconv]: decimal formatting of integers                    *)
(* ===================================================================== *)

Module strconv.

(** The ASCII character of a decimal digit. *)
Definition digit_char (d : Z) : ascii :=
  match d with
  | 0 => "0" | 1 => "1" | 2 => "2" | 3 => "3" | 4 => "4"
  | 5 => "5" | 6 => "6" | 7 => "7" | 8 => "8" | _ => "9"
  end%char.

(** The digit loop of [formatBits] in base 10: the least significant
    digit is peeled off and written in front of what is already
    there, until the number is a single digit. *)
Fixpoint formatBits (fuel : nat) (u : Z) (a : string) : string :=
  match fuel with
  | O => a
  | S fuel' =>
      if u <? 10 then String (digit_char u) a
      else formatBits fuel' (u / 10) (String (digit_char (u mod 10)) a)
  end.

(** A number below [2 ^ n] has at most [n] decimal digits, so the
    binary size of [u] is enough fuel. *)
Definition FormatUint (u : Z) : string :=
  formatBits (S (Z.to_nat (Z.log2 u))) u EmptyString.

(** [strconv.Itoa]: a minus sign for a negative number, then the
    digits of the magnitude. *)
Definition Itoa (i : Z) : string :=
  if i <? 0 then String "-"%char (FormatUint (- i)) else FormatUint i.

(** Reading a decimal numeral back, used to state what [Itoa]
    produces. *)
Definition char_digit (c : ascii) : option Z :=
  let n := Z.of_N (N_of_ascii c) in
  if (48 <=? n) && (n <=? 57) then Some (n - 48) else None.

Fixpoint digits_value (s : string) (acc : Z) : option Z :=
  match s with
  | EmptyString => Some acc
  | String c s' =>
      match char_digit c with
      | Some d => digits_value s' (10 * acc + d)
      | None => None
      end
  end.

Definition Atoi (s : string) : option Z :=
  match s with
  | EmptyString => None
  | String c s' =>
      if Ascii.eqb c "-"%char then
        match s' with
        | EmptyString => None
        | _ => Z.opp <$> digits_value s' 0
        end
      else digits_value s 0
  end.

End strconv.

(* ===================================================================== *)
(** ** cosmos-sdk [types]: addresses, coins, errors, tags                *)
(* ===================================================================== *)

Module sdk.

(** [sdk.Address] is a byte slice under another name. *)
Abbreviation Address := (list byte).

Definition hex_char (n : N) : ascii :=
  match n with
  | 0 => "0" | 1 => "1" | 2 => "2" | 3 => "3" | 4 => "4" | 5 => "5"
  | 6 => "6" | 7 => "7" | 8 => "8" | 9 => "9" | 10 => "A" | 11 => "B"
  | 12 => "C" | 13 => "D" | 14 => "E" | _ => "F"
  end%N%char.

(** [Address.String]: upper-case hexadecimal, two characters a byte. *)
Fixpoint Address_String (a : Address) : string :=
  match a with
  | [] => EmptyString
  | b :: a' =>
      let n := Byte.to_N b in
      String (hex_char (n / 16)) (String (hex_char (n mod 16)) (Address_String a'))
  end.

(** *** Coins *)

Record Coin := mkCoin { Denom : string; Amount : Z }.

Abbreviation Coins := (list Coin).

Definition Coin_IsZero (coin : Coin) : bool := Amount coin =? 0.
Definition Coin_IsPositive (coin : Coin) : bool := 0 <? Amount coin.
Definition Coin_IsNotNegative (coin : Coin) : bool := 0 <=? Amount coin.
Definition Coin_SameDenomAs (coin other : Coin) : bool :=
  String.eqb (Denom coin) (Denom other).

Definition Coin_Plus (coin coinB : Coin) : Coin :=
  if Coin_SameDenomAs coin coinB
  then mkCoin (Denom coin) (Amount coin + Amount coinB)
  else coin.

Definition Coin_String (coin : Coin) : string :=
  (strconv.Itoa (Amount coin) ++ Denom coin)%string.

(** [Coins.String]: the coins separated by commas. *)
Fixpoint Coins_String (coins : Coins) : string :=
  match coins with
  | [] => EmptyString
  | [coin] => Coin_String coin
  | coin :: rest => (Coin_String coin ++ "," ++ Coins_String rest)%string
  end.

(** The loop of [Coins.IsValid] over [coins[1:]]: every coin's
    denomination is above the previous one and its amount is not
    zero. *)
Fixpoint IsValid_loop (lowDenom : string) (rest : Coins) : bool :=
  match rest with
  | [] => true
  | coin :: rest' =>
      if String.leb (Denom coin) lowDenom then false
      else if Coin_IsZero coin then false
      else IsValid_loop (Denom coin) rest'
  end.

(** [Coins.IsValid]: "must be sorted, and not have 0 amounts".  With
    two coins or more the loop starts at the second one. *)
Definition IsValid (coins : Coins) : bool :=
  match coins with
  | [] => true
  | [coin] => negb (Coin_IsZero coin)
  | coin :: rest => IsValid_loop (Denom coin) rest
  end.

(** [Coins.Plus]: the merge of two denomination-ordered lists, adding
    the amounts of a shared denomination and leaving out a zero sum. *)
Fixpoint Plus (coins coinsB : Coins) : Coins :=
  match coins with
  | [] => coinsB
  | coinA :: restA =>
      (fix PlusB (coinsB : Coins) : Coins :=
         match coinsB with
         | [] => coinA :: restA
         | coinB :: restB =>
             match String.compare (Denom coinA) (Denom coinB) with
             | Lt => coinA :: Plus restA (coinB :: restB)
             | Eq =>
                 if Amount coinA + Amount coinB =? 0
                 then Plus restA restB
                 else Coin_Plus coinA coinB :: Plus restA restB
             | Gt => coinB :: PlusB restB
             end
         end) coinsB
  end.

Definition Negative (coins : Coins) : Coins :=
  map (fun coin => mkCoin (Denom coin) (- Amount coin)) coins.

(** [Coins.Minus]: "adds the inverse". *)
Definition Minus (coins coinsB : Coins) : Coins :=
  Plus coins (Negative coinsB).

(** At least one coin, and every amount positive. *)
Definition IsPositive (coins : Coins) : bool :=
  match coins with
  | [] => false
  | _ => forallb Coin_IsPositive coins
  end.

(** No coin with a negative amount (no coins at all is fine). *)
Definition IsNotNegative (coins : Coins) : bool :=
  forallb Coin_IsNotNegative coins.

(** What a set of coins holds of one denomination: the sum of the
    amounts listed under it. *)
Fixpoint AmountOf (denom : string) (coins : Coins) : Z :=
  match coins with
  | [] => 0
  | coin :: rest =>
      (if String.eqb (Denom coin) denom then Amount coin else 0)
      + AmountOf denom rest
  end.

(** *** Errors and tags *)

Inductive CodeType :=
| CodeInsufficientFunds
| CodeInvalidAddress
| CodeUnknownAddress
| CodeInsufficientCoins
| CodeInvalidCoins.

(** [CodeToDefaultMsg]. *)
Definition CodeToDefaultMsg (code : CodeType) : string :=
  match code with
  | CodeInsufficientFunds => "insufficient funds"
  | CodeInvalidAddress => "invalid address"
  | CodeUnknownAddress => "unknown address"
  | CodeInsufficientCoins => "insufficient coins"
  | CodeInvalidCoins => "invalid coins"
  end.

Record Error := mkError { Code : CodeType; Msg : string }.

(** [newError]: an empty message gives way to the default text of the
    code. *)
Definition newError (code : CodeType) (msg : string) : Error :=
  mkError code (if String.eqb msg "" then CodeToDefaultMsg code else msg).

Definition ErrInsufficientFunds := newError CodeInsufficientFunds.
Definition ErrInvalidAddress := newError CodeInvalidAddress.
Definition ErrUnknownAddress := newError CodeUnknownAddress.
Definition ErrInsufficientCoins := newError CodeInsufficientCoins.
Definition ErrInvalidCoins := newError CodeInvalidCoins.

(** Key/value pairs attached to a result; Go's [nil] tags are the
    empty list. *)
Abbreviation Tags := (list (string * bytes)).

Definition NewTags : Tags := [].

End sdk.

Import sdk.

(** Byte strings are the keys of the store and of the account map. *)
#[global] Instance byte_eq_dec : EqDecision byte := Byte.byte_eq_dec.
#[global] Instance byte_countable : Countable byte :=
  inj_countable Byte.to_N Byte.of_N Byte.of_to_N.

#[global] Instance Coin_eq_dec : EqDecision Coin.
Proof. solve_decision. Defined.
#[global] Instance Coin_countable : Countable Coin :=
  inj_countable' (fun c => (Denom c, Amount c)) (fun p => mkCoin p.1 p.2)
    (fun c => match c with mkCoin _ _ => eq_refl end).

(* ===================================================================== *)
(** ** The context: the store of the module and the accounts             *)
(* ===================================================================== *)

(** What a transaction's [sdk.Context] gives access to: the key-value
    store mounted under the keeper's [storeKey], and the accounts the
    bank keeper reads and writes. *)
Record Context := mkContext {
  KVStore : gmap bytes bytes;
  accounts : gmap bytes Coins;
}.

(** A keeper method runs on a context.  [None] is a Go panic. *)
Definition M (A : Type) : Type := Context -> option (A * Context).

Definition ret {A} (a : A) : M A := fun ctx => Some (a, ctx).

Definition bind {A B} (m : M A) (f : A -> M B) : M B :=
  fun ctx =>
    match m ctx with
    | Some (a, ctx') => f a ctx'
    | None => None
    end.

Declare Scope keeper_scope.
Delimit Scope keeper_scope with keeper.
Notation "'let*' x := m 'in' k" := (bind m (fun x => k))
  (at level 10, x name, m at level 100, k at level 200) : keeper_scope.
Notation "'let*' ' p := m 'in' k" :=
  (bind m (fun x => match x with p => k end))
  (at level 10, p pattern, m at level 100, k at level 200) : keeper_scope.

(** A [Must...] call: the value, or a panic. *)
Definition must {A} (o : option A) : M A :=
  fun ctx => match o with Some a => Some (a, ctx) | None => None end.

(** The three operations of [sdk.KVStore], on a store that works: a
    failure of the store itself is not modelled. *)
Definition store_Get (key : bytes) : M (option bytes) :=
  fun ctx => Some (KVStore ctx !! key, ctx).

Definition store_Set (key value : bytes) : M unit :=
  fun ctx => Some (tt, mkContext (<[key := value]> (KVStore ctx)) (accounts ctx)).

Definition store_Delete (key : bytes) : M unit :=
  fun ctx => Some (tt, mkContext (delete key (KVStore ctx)) (accounts ctx)).

(* ===================================================================== *)
(** ** cosmos-sdk [x/bank]: the coin keeper                              *)
(* ===================================================================== *)

Module bank.

(** An address without an account holds no coins. *)
Definition getCoins (am : gmap bytes Coins) (addr : Address) : Coins :=
  default [] (am !! addr).

(** Writing the coins of an address creates the account if there is
    none. *)
Definition setCoins (am : gmap bytes Coins) (addr : Address) (amt : Coins)
  : gmap bytes Coins :=
  <[addr := amt]> am.

(** [subtractCoins]: the new balance is written only if no
    denomination of it is negative.  The tag carries the bytes of the
    address. *)
Definition subtractCoins (am : gmap bytes Coins) (addr : Address) (amt : Coins)
  : gmap bytes Coins * (Coins * Tags * option Error) :=
  let oldCoins := getCoins am addr in
  let newCoins := Minus oldCoins amt in
  if negb (IsNotNegative newCoins) then
    (am, (amt, [],
          Some (ErrInsufficientCoins
                  (Coins_String oldCoins ++ " < " ++ Coins_String amt)%string)))
  else
    (setCoins am addr newCoins,
     (newCoins, [("sender"%string, addr)], None)).

(** [addCoins]: the same shape, with the sum. *)
Definition addCoins (am : gmap bytes Coins) (addr : Address) (amt : Coins)
  : gmap bytes Coins * (Coins * Tags * option Error) :=
  let oldCoins := getCoins am addr in
  let newCoins := Plus oldCoins amt in
  if negb (IsNotNegative newCoins) then
    (am, (amt, [],
          Some (ErrInsufficientCoins
                  (Coins_String oldCoins ++ " < " ++ Coins_String amt)%string)))
  else
    (setCoins am addr newCoins,
     (newCoins, [("recipient"%string, addr)], None)).

Definition SubtractCoins (addr : Address) (amt : Coins)
  : M (Coins * Tags * option Error) :=
  fun ctx =>
    let '(am, r) := subtractCoins (accounts ctx) addr amt in
    Some (r, mkContext (KVStore ctx) am).

Definition AddCoins (addr : Address) (amt : Coins)
  : M (Coins * Tags * option Error) :=
  fun ctx =>
    let '(am, r) := addCoins (accounts ctx) addr amt in
    Some (r, mkContext (KVStore ctx) am).

End bank.

(* ===================================================================== *)
(** ** The payment channel keeper                                        *)
(* ===================================================================== *)

(** The payment channel, with the fields [CreatePaychan] fills in. *)
Module types.
Record Paychan := mkPaychan {
  sender : Address;
  receiver : Address;
  id : Z;
  balance : Coins;
}.
End types.
Export types.

(** Go's zero value of the struct ([var pych Paychan]). *)
Definition zeroPaychan : Paychan := mkPaychan [] [] 0 [].

(** The two methods of [wire.Codec] the keeper calls, at the one type
    it calls them at.  Both panic when something goes wrong. *)
Class Codec := {
  MustMarshalBinary : Paychan -> option bytes;
  MustUnmarshalBinary : bytes -> option Paychan;
}.

(** What the keeper's code expects of a codec: what it wrote, it reads
    back.  The program's own codec does not obey this law (see
    [codec_drops_fields]). *)
Definition codec_roundtrip (cdc : Codec) : Prop :=
  forall pych : Paychan,
    exists bz, MustMarshalBinary pych = Some bz /\ MustUnmarshalBinary bz = Some pych.

(** Marshalling returns. *)
Definition codec_marshals (cdc : Codec) : Prop :=
  forall pych : Paychan, exists bz, MustMarshalBinary pych = Some bz.

(** The law of the program's own codec.  [sender], [receiver], [id]
    and [balance] are unexported fields, and a codec that works by
    reflection neither writes nor reads them: whatever channel is
    marshalled, the bytes unmarshal to the zero channel, and no bytes
    unmarshal to anything else. *)
Definition codec_drops_fields (cdc : Codec) : Prop :=
  (forall pych : Paychan,
     exists bz, MustMarshalBinary pych = Some bz
                /\ MustUnmarshalBinary bz = Some zeroPaychan)
  /\ (forall bz pych, MustUnmarshalBinary bz = Some pych -> pych = zeroPaychan).

(** Conversion to [int64], with its wrap-around. *)
Definition int64 (z : Z) : Z := (z + 2 ^ 63) mod 2 ^ 64 - 2 ^ 63.

(** [len] of a Go slice. *)
Definition len {A} (l : list A) : Z := Z.of_nat (length l).

Section Keeper.

Context {cdc : Codec}.

Local Open Scope keeper_scope.

(** [paychanKey]: the sender, the receiver and the decimal id, one
    after the other.  ([int] is taken to be 64 bits wide, so the
    conversion of the id is the identity.) *)
Definition paychanKey (sender receiver : Address) (id : Z) : bytes :=
  let idAsBytes := list_byte_of_string (strconv.Itoa id) in
  let key := sender ++ receiver in
  let key := key ++ idAsBytes in
  key.

(** [GetPaychans]: not implemented, no channel is ever listed. *)
Definition GetPaychans (sender receiver : Address) : list Paychan :=
  let paychans : list Paychan := [] in
  paychans.

Definition GetPaychan (sender receiver : Address) (id : Z) : M (Paychan * bool) :=
  let pych := zeroPaychan in
  let* bz := store_Get (paychanKey sender receiver id) in
  match bz with
  | None => ret (pych, false)
  | Some bz =>
      let* pych := must (MustUnmarshalBinary bz) in
      ret (pych, true)
  end.

Definition setPaychan (pych : Paychan) : M unit :=
  let* bz := must (MustMarshalBinary pych) in
  let pychKey := paychanKey (sender pych) (receiver pych) (id pych) in
  store_Set pychKey bz.

(** The id [CreatePaychan] gives to a new channel: "num existing
    paychans plus 1". *)
Definition nextId (sender receiver : Address) : Z :=
  int64 (len (GetPaychans sender receiver) + 1).

Definition CreatePaychan (sender receiver : Address) (amount : Coins)
  : M (Tags * option Error) :=
  if len sender =? 0 then
    ret ([], Some (ErrInvalidAddress (Address_String sender)))
  else if len receiver =? 0 then
    ret ([], Some (ErrInvalidAddress (Address_String receiver)))
  else if len amount =? 0 then
    ret ([], Some (ErrInvalidCoins (Coins_String amount)))
  else if negb (IsValid amount) then
    ret ([], Some (ErrInvalidCoins (Coins_String amount)))
  else if negb (IsPositive amount) then
    ret ([], Some (ErrInvalidCoins (Coins_String amount)))
  else
    let id := nextId sender receiver in
    let* '(_, tags, err) := bank.SubtractCoins sender amount in
    match err with
    | Some e => ret ([], Some e)
    | None =>
        let pych := mkPaychan sender receiver id amount in
        let* _ := setPaychan pych in
        ret (tags, err)
    end.

Definition ClosePaychan (sender receiver : Address) (id : Z) (receiverAmount : Coins)
  : M (Tags * option Error) :=
  if len sender =? 0 then
    ret ([], Some (ErrInvalidAddress (Address_String sender)))
  else if len receiver =? 0 then
    ret ([], Some (ErrInvalidAddress (Address_String receiver)))
  else if len receiverAmount =? 0 then
    ret ([], Some (ErrInvalidCoins (Coins_String receiverAmount)))
  else if id <? 0 then
    ret ([], Some (ErrInvalidAddress (strconv.Itoa id)))
  else if negb (IsValid receiverAmount) then
    ret ([], Some (ErrInvalidCoins (Coins_String receiverAmount)))
  else if negb (IsPositive receiverAmount) then
    ret ([], Some (ErrInvalidCoins (Coins_String receiverAmount)))
  else
    let* '(pych, exists_) := GetPaychan sender receiver id in
    if negb exists_ then
      ret ([], Some (ErrUnknownAddress "paychan not found"))
    else
      let senderAmount := Minus (balance pych) receiverAmount in
      if negb (IsNotNegative senderAmount) then
        ret ([], Some (ErrInsufficientFunds (Coins_String (balance pych))))
      else
        let* _ := bank.AddCoins sender senderAmount in
        let* _ := bank.AddCoins receiver receiverAmount in
        let pychKey := paychanKey (types.sender pych) (types.receiver pych) (types.id pych) in
        let* _ := store_Delete pychKey in
        let tags := NewTags in
        ret (tags, None).

End Keeper.

(* ===================================================================== *)
(** ** What the properties are stated with                               *)
(* ===================================================================== *)

(** A debit as the ledger sees it: the balance of [addr] becomes its
    difference with [amt]. *)
Definition debit (addr : Address) (amt : Coins) (am : gmap bytes Coins)
  : gmap bytes Coins :=
  <[addr := Minus (bank.getCoins am addr) amt]> am.

(** What [addr] holds of [denom]. *)
Definition holds (ctx : Context) (addr : Address) (denom : string) : Z :=
  AmountOf denom (bank.getCoins (accounts ctx) addr).

(** The order [IsValid] wants between one coin and the next. *)
Definition denom_lt (a b : Coin) : Prop :=
  String.compare (Denom a) (Denom b) = Lt.

(** The ways an amount can fail to be canonical, in the words of the
    specification. *)
Definition duplicate_denoms (amount : Coins) : Prop :=
  ~ NoDup (map Denom amount).

Definition unsorted (amount : Coins) : Prop :=
  ~ Sorted (fun a b => String.leb (Denom a) (Denom b) = true) amount.

Definition zero_quantity (amount : Coins) : Prop :=
  Exists (fun coin => Amount coin = 0) amount.

Definition not_strictly_positive (amount : Coins) : Prop :=
  Exists (fun coin => Amount coin <= 0) amount.

(** The result of a call the validation turned down: no tags, the
    error, and the context as it was. *)
Definition rejected (e : Error) (ctx : Context) : option (Tags * option Error * Context) :=
  Some (([], Some e), ctx).

(* ===================================================================== *)
(** ** The contexts the keeper produces                                  *)
(* ===================================================================== *)

(** A channel as [CreatePaychan] writes one: both parties named, the
    id the stub enumeration leads to, and an amount that passed the
    checks. *)
Definition channel_ok (pych : Paychan) : Prop :=
  types.sender pych <> [] /\ types.receiver pych <> [] /\ types.id pych = 1 /\
  IsValid (balance pych) = true /\ IsPositive (balance pych) = true.

(** Every value of the store is what such a channel was marshalled to,
    kept under the key of the channel's fields. *)
Definition store_written {cdc : Codec} (ctx : Context) : Prop :=
  forall key bz,
    KVStore ctx !! key = Some bz ->
    exists pych,
      MustMarshalBinary pych = Some bz /\ channel_ok pych /\
      paychanKey (types.sender pych) (types.receiver pych) (types.id pych) = key.

(** The contexts a chain can be in: it starts with an empty channel
    store; the keeper's two entry points run on it, whatever they
    return; the rest of the application may change the accounts. *)
Inductive reachable {cdc : Codec} : Context -> Prop :=
| reachable_genesis am :
    reachable (mkContext ∅ am)
| reachable_CreatePaychan ctx sender receiver amount res ctx' :
    reachable ctx ->
    CreatePaychan sender receiver amount ctx = Some (res, ctx') ->
    reachable ctx'
| reachable_ClosePaychan ctx sender receiver id receiverAmount res ctx' :
    reachable ctx ->
    ClosePaychan sender receiver id receiverAmount ctx = Some (res, ctx') ->
    reachable ctx'
| reachable_accounts ctx am :
    reachable ctx -> reachable (mkContext (KVStore ctx) am).

(** All the accounts together hold this much of [denom]. *)
Definition supply (denom : string) (am : gmap bytes Coins) : Z :=
  map_fold (fun _ coins acc => AmountOf denom coins + acc) 0 am.


(* ===================================================================== *)
(** ** A codec to run the keeper with                                    *)
(* ===================================================================== *)

(** The program's codec at [Paychan]: a struct none of whose fields it
    sees is written as a length and the end of the struct, and read
    back as the zero value.  Other bytes are never in the keeper's
    store; reading them is taken to panic. *)
Module amino.

Definition struct_bytes : bytes := [x01; x04].

Definition cdc : Codec := {|
  MustMarshalBinary _ := Some struct_bytes;
  MustUnmarshalBinary bz :=
    if decide (bz = struct_bytes) then Some zeroPaychan else None;
|}.

End amino.

(** A codec with the round-trip law, to run the keeper as its code
    expects to be run (as with exported fields); this one writes the
    bits of stdpp's [encode], a byte per bit. *)
Module bitcodec.

Fixpoint bytes_of_pos (p : positive) : bytes :=
  match p with
  | xH => []
  | xO p' => x00 :: bytes_of_pos p'
  | xI p' => x01 :: bytes_of_pos p'
  end.

Fixpoint pos_of_bytes (bz : bytes) : option positive :=
  match bz with
  | [] => Some xH
  | x00 :: bz' => xO <$> pos_of_bytes bz'
  | x01 :: bz' => xI <$> pos_of_bytes bz'
  | _ => None
  end.

#[global] Instance Paychan_eq_dec : EqDecision Paychan.
Proof. solve_decision. Defined.

#[global] Instance Paychan_countable : Countable Paychan :=
  inj_countable'
    (fun p => (types.sender p, types.receiver p, types.id p, types.balance p))
    (fun t => mkPaychan t.1.1.1 t.1.1.2 t.1.2 t.2)
    (fun p => match p with mkPaychan _ _ _ _ => eq_refl end).

Definition cdc : Codec := {|
  MustMarshalBinary pych := Some (bytes_of_pos (encode pych));
  MustUnmarshalBinary bz := pos_of_bytes bz ≫= decode;
|}.

End bitcodec.

(** The scenario of the specification: sender S with 100 gold, and
    receiver R; run here with the round-trip codec. *)
Module scenario.
Definition S : Address := [x53].
Definition R : Address := [x52].
Definition gold (n : Z) : Coins := [mkCoin "gold" n].
Definition ctx0 : Context := mkContext ∅ {[ S := gold 100 ]}.

(** The context a call leaves behind. *)
Definition after {A} (m : M A) (ctx : Context) : Context :=
  match m ctx with
  | Some (_, ctx') => ctx'
  | None => ctx
  end.

(** After [CreatePaychan(S, R, 40 gold)], and after
    [ClosePaychan(S, R, 1, 15 gold)] on top of it. *)
Definition ctx1 : Context :=
  after (CreatePaychan (cdc := bitcodec.cdc) S R (gold 40)) ctx0.
Definition ctx2 : Context :=
  after (ClosePaychan (cdc := bitcodec.cdc) S R 1 (gold 15)) ctx1.

End scenario.

(** The same scenario run with the program's codec. *)
Module program.
Import scenario.

(** After [CreatePaychan(S, R, 40 gold)]. *)
Definition ctx1 : Context :=
  after (CreatePaychan (cdc := amino.cdc) S R (gold 40)) ctx0.

(** A store with a value under the key of two empty addresses and the
    id -1. *)
Definition ctx_minus1 : Context :=
  mkContext {[ [x2d; x31] := amino.struct_bytes ]} ∅.
End program.

(** Two parties whose addresses run into each other: a channel from
    [A] to [BC], and the pair [AB], [C]. *)
Module overlap.
Definition A : Address := [x61].
Definition BC : Address := [x62; x63].
Definition AB : Address := [x61; x62].
Definition C : Address := [x63].
Definition gold (n : Z) : Coins := [mkCoin "gold" n].
Definition ctx0 : Context :=
  mkContext ∅ (<[ AB := gold 50 ]> {[ A := gold 100 ]}).

(** After [CreatePaychan(A, BC, 40 gold)], and after
    [CreatePaychan(AB, C, 30 gold)] on top of it. *)
Definition ctx1 : Context :=
  scenario.after (CreatePaychan (cdc := amino.cdc) A BC (gold 40)) ctx0.
Definition ctx2 : Context :=
  scenario.after (CreatePaychan (cdc := amino.cdc) AB C (gold 30)) ctx1.
End overlap.

(* ===================================================================== *)
(** ** Decimal formatting                                                *)
(* ===================================================================== *)

Section strconv_facts.
Import strconv.

Lemma char_digit_digit_char d :
  0 <= d <= 9 -> char_digit (digit_char d) = Some d.
Proof.
  intros Hd.
  assert (d = 0 \/ d = 1 \/ d = 2 \/ d = 3 \/ d = 4 \/
          d = 5 \/ d = 6 \/ d = 7 \/ d = 8 \/ d = 9) as Hcases by lia.
  repeat (destruct Hcases as [-> | Hcases]; [reflexivity |]).
  subst d. reflexivity.
Qed.

Lemma digit_char_not_minus d : Ascii.eqb (digit_char d) "-"%char = false.
Proof.
  unfold digit_char.
  repeat match goal with
         | |- context [match ?x with _ => _ end] => destruct x
         end; reflexivity.
Qed.

(** The digits written by the loop read back as the number, whatever
    was already in the buffer being read after them. *)
Lemma digits_value_formatBits fuel : forall u a,
  0 <= u < 2 ^ Z.of_nat fuel ->
  digits_value (formatBits fuel u a) 0 = digits_value a u.
Proof.
  induction fuel as [| fuel IH]; intros u a Hu.
  - simpl in *. replace u with 0 by lia. reflexivity.
  - cbn [formatBits]. destruct (Z.ltb_spec u 10) as [Hlt | Hge].
    + cbn [digits_value]. rewrite char_digit_digit_char by lia.
      f_equal.
    + rewrite IH.
      * cbn [digits_value].
        rewrite char_digit_digit_char by (pose proof (Z.mod_pos_bound u 10); lia).
        f_equal. pose proof (Z.div_mod u 10). lia.
      * rewrite Nat2Z.inj_succ, Z.pow_succ_r in Hu by lia.
        split; [apply Z.div_pos; lia |].
        apply Z.div_lt_upper_bound; lia.
Qed.

(** The loop never writes nothing, and what it writes first is a
    digit. *)
Lemma formatBits_head fuel : forall u a,
  (fuel <> O \/ exists d s, a = String (digit_char d) s) ->
  exists d s, formatBits fuel u a = String (digit_char d) s.
Proof.
  induction fuel as [| fuel IH]; intros u a Hstart.
  - destruct Hstart as [Hne | Hdigit]; [congruence | exact Hdigit].
  - cbn [formatBits]. destruct (u <? 10); eauto.
Qed.

Lemma FormatUint_bound u : 0 <= u -> u < 2 ^ Z.of_nat (S (Z.to_nat (Z.log2 u))).
Proof.
  intros Hu. rewrite Nat2Z.inj_succ, Z2Nat.id by apply Z.log2_nonneg.
  destruct (Z.eq_dec u 0) as [-> | Hne]; [reflexivity |].
  apply Z.log2_spec. lia.
Qed.

Lemma digits_value_FormatUint u :
  0 <= u -> digits_value (FormatUint u) 0 = Some u.
Proof.
  intros Hu. unfold FormatUint.
  rewrite digits_value_formatBits; [reflexivity |].
  split; [exact Hu | apply FormatUint_bound; exact Hu].
Qed.

Lemma FormatUint_head u : exists d s, FormatUint u = String (digit_char d) s.
Proof. apply formatBits_head. left. discriminate. Qed.

(** [Itoa] writes a numeral of its argument: reading it gives the
    argument back. *)
Lemma Atoi_Itoa i : Atoi (Itoa i) = Some i.
Proof.
  unfold Itoa. destruct (Z.ltb_spec i 0) as [Hneg | Hpos].
  - cbn [Atoi]. change (Ascii.eqb "-" "-") with true. cbn match.
    destruct (FormatUint_head (- i)) as (d & s & Hhead).
    pose proof (digits_value_FormatUint (- i) ltac:(lia)) as Hval.
    rewrite Hhead in *. rewrite Hval. cbn. f_equal. lia.
  - destruct (FormatUint_head i) as (d & s & Hhead).
    pose proof (digits_value_FormatUint i Hpos) as Hval.
    rewrite Hhead in *. cbn [Atoi]. rewrite digit_char_not_minus. exact Hval.
Qed.

Lemma Itoa_inj i j : Itoa i = Itoa j -> i = j.
Proof.
  intros Heq. pose proof (Atoi_Itoa i) as Hi. rewrite Heq, Atoi_Itoa in Hi.
  congruence.
Qed.

End strconv_facts.

(* ===================================================================== *)
(** ** Coin arithmetic                                                   *)
(* ===================================================================== *)

Section coin_facts.

Lemma Plus_cons coinA restA coinB restB :
  Plus (coinA :: restA) (coinB :: restB) =
  match String.compare (Denom coinA) (Denom coinB) with
  | Lt => coinA :: Plus restA (coinB :: restB)
  | Eq =>
      if Amount coinA + Amount coinB =? 0
      then Plus restA restB
      else Coin_Plus coinA coinB :: Plus restA restB
  | Gt => coinB :: Plus (coinA :: restA) restB
  end.
Proof. reflexivity. Qed.

Lemma Plus_nil_r coins : Plus coins [] = coins.
Proof. destruct coins; reflexivity. Qed.

Lemma Coin_Plus_same coinA coinB :
  Denom coinA = Denom coinB ->
  Coin_Plus coinA coinB = mkCoin (Denom coinA) (Amount coinA + Amount coinB).
Proof.
  intros Hd. unfold Coin_Plus, Coin_SameDenomAs.
  rewrite Hd, String.eqb_refl. reflexivity.
Qed.

(** The merge adds up, denomination by denomination, whatever the
    order of its arguments. *)
Lemma AmountOf_Plus denom : forall coins coinsB,
  AmountOf denom (Plus coins coinsB) = AmountOf denom coins + AmountOf denom coinsB.
Proof.
  induction coins as [| coinA restA IHA]; [reflexivity |].
  induction coinsB as [| coinB restB IHB].
  - rewrite Plus_nil_r. cbn [AmountOf]. lia.
  - rewrite Plus_cons.
    destruct (String.compare (Denom coinA) (Denom coinB)) eqn:Hcmp.
    + apply String.compare_eq_iff in Hcmp.
      destruct (Z.eqb_spec (Amount coinA + Amount coinB) 0) as [Hz | Hnz].
      * rewrite IHA. cbn [AmountOf]. rewrite <- Hcmp.
        destruct (String.eqb (Denom coinA) denom); lia.
      * rewrite Coin_Plus_same by exact Hcmp.
        cbn [AmountOf Denom Amount]. rewrite IHA, <- Hcmp.
        destruct (String.eqb (Denom coinA) denom); lia.
    + cbn [AmountOf]. rewrite IHA. cbn [AmountOf]. lia.
    + cbn [AmountOf] in *. rewrite IHB. lia.
Qed.

Lemma AmountOf_Negative denom coins :
  AmountOf denom (Negative coins) = - AmountOf denom coins.
Proof.
  induction coins as [| coin rest IH]; [reflexivity |].
  cbn [Negative map AmountOf Denom Amount]. fold (Negative rest). rewrite IH.
  destruct (String.eqb (Denom coin) denom); lia.
Qed.

Lemma AmountOf_Minus denom coins coinsB :
  AmountOf denom (Minus coins coinsB) = AmountOf denom coins - AmountOf denom coinsB.
Proof. unfold Minus. rewrite AmountOf_Plus, AmountOf_Negative. lia. Qed.

Lemma IsNotNegative_cons coin rest :
  IsNotNegative (coin :: rest) = true <-> 0 <= Amount coin /\ IsNotNegative rest = true.
Proof.
  unfold IsNotNegative. cbn [forallb]. unfold Coin_IsNotNegative.
  rewrite andb_true_iff, Z.leb_le. reflexivity.
Qed.

(** Coins without a negative entry hold a negative total of no
    denomination. *)
Lemma IsNotNegative_AmountOf denom coins :
  IsNotNegative coins = true -> 0 <= AmountOf denom coins.
Proof.
  induction coins as [| coin rest IH]; intros Hnn; [cbn; lia |].
  apply IsNotNegative_cons in Hnn as [Hc Hrest].
  cbn [AmountOf]. specialize (IH Hrest).
  destruct (String.eqb (Denom coin) denom); lia.
Qed.

Lemma IsNotNegative_Plus : forall coins coinsB,
  IsNotNegative coins = true -> IsNotNegative coinsB = true ->
  IsNotNegative (Plus coins coinsB) = true.
Proof.
  induction coins as [| coinA restA IHA]; [intros; assumption |].
  induction coinsB as [| coinB restB IHB]; intros HA HB.
  - rewrite Plus_nil_r. exact HA.
  - rewrite Plus_cons.
    pose proof HA as HA'. pose proof HB as HB'.
    apply IsNotNegative_cons in HA' as [HcA HrA].
    apply IsNotNegative_cons in HB' as [HcB HrB].
    destruct (String.compare (Denom coinA) (Denom coinB)) eqn:Hcmp.
    + apply String.compare_eq_iff in Hcmp.
      destruct (Amount coinA + Amount coinB =? 0); [auto |].
      rewrite Coin_Plus_same by exact Hcmp.
      apply IsNotNegative_cons. cbn [Amount]. split; [lia | auto].
    + apply IsNotNegative_cons. split; [lia | auto].
    + apply IsNotNegative_cons. split; [lia | auto].
Qed.

Lemma IsPositive_Forall coins :
  IsPositive coins = true <-> coins <> [] /\ Forall (fun coin => 0 < Amount coin) coins.
Proof.
  unfold IsPositive. destruct coins as [| coin rest].
  - split; [discriminate | intros [Hne _]; congruence].
  - rewrite forallb_forall, Forall_forall. unfold Coin_IsPositive.
    split.
    + intros Hall. split; [discriminate |].
      intros c Hc. apply Z.ltb_lt, Hall. apply list_elem_of_In. exact Hc.
    + intros [_ Hall] c Hc. apply Z.ltb_lt, Hall. apply list_elem_of_In. exact Hc.
Qed.

Lemma IsPositive_IsNotNegative coins :
  IsPositive coins = true -> IsNotNegative coins = true.
Proof.
  intros Hpos. apply IsPositive_Forall in Hpos as [_ Hall].
  induction Hall as [| coin rest Hc Hrest IH]; [reflexivity |].
  apply IsNotNegative_cons. split; [lia | exact IH].
Qed.

(** *** What [IsValid] checks *)

Lemma leb_false_lt s1 s2 :
  String.leb s1 s2 = false -> String.compare s2 s1 = Lt.
Proof.
  unfold String.leb. rewrite String.compare_antisym.
  destruct (String.compare s2 s1); cbn; congruence.
Qed.

Lemma denom_lt_trans a b c : denom_lt a b -> denom_lt b c -> denom_lt a c.
Proof.
  unfold denom_lt. intros Hab Hbc.
  apply String_as_OT.cmp_lt. apply String_as_OT.cmp_lt in Hab, Hbc.
  eapply String_as_OT.lt_trans; eassumption.
Qed.

Lemma denom_lt_neq a b : denom_lt a b -> Denom a <> Denom b.
Proof.
  unfold denom_lt. intros Hab Heq.
  apply String_as_OT.cmp_lt in Hab.
  exact (String_as_OT.lt_not_eq _ _ Hab Heq).
Qed.

Lemma denom_lt_leb a b : denom_lt a b -> String.leb (Denom a) (Denom b) = true.
Proof. unfold denom_lt, String.leb. intros ->. reflexivity. Qed.

Lemma IsValid_loop_Sorted : forall rest coin,
  IsValid_loop (Denom coin) rest = true -> Sorted denom_lt (coin :: rest).
Proof.
  induction rest as [| next rest IH]; intros coin Hloop.
  - repeat constructor.
  - cbn [IsValid_loop] in Hloop.
    destruct (String.leb (Denom next) (Denom coin)) eqn:Hleb; [discriminate |].
    destruct (Coin_IsZero next); [discriminate |].
    constructor; [apply IH; exact Hloop |].
    constructor. apply leb_false_lt. exact Hleb.
Qed.

(** Valid coins are listed by strictly increasing denomination. *)
Lemma IsValid_Sorted coins : IsValid coins = true -> Sorted denom_lt coins.
Proof.
  destruct coins as [| coin [| next rest]]; intros Hvalid.
  - constructor.
  - repeat constructor.
  - apply IsValid_loop_Sorted. exact Hvalid.
Qed.

Lemma StronglySorted_NoDup coins :
  StronglySorted denom_lt coins -> NoDup (map Denom coins).
Proof.
  induction 1 as [| coin rest Hrest IH Hall]; cbn [map]; constructor.
  - intros Hin. apply list_elem_of_In, in_map_iff in Hin as (c & Heq & Hc).
    rewrite Forall_forall in Hall.
    apply list_elem_of_In in Hc.
    exact (denom_lt_neq _ _ (Hall c Hc) (eq_sym Heq)).
  - exact IH.
Qed.

Lemma IsValid_NoDup coins : IsValid coins = true -> NoDup (map Denom coins).
Proof.
  intros Hvalid. apply StronglySorted_NoDup, Sorted_StronglySorted.
  - intros a b c. apply denom_lt_trans.
  - apply IsValid_Sorted. exact Hvalid.
Qed.

Lemma Sorted_lt_leb coins :
  Sorted denom_lt coins ->
  Sorted (fun a b => String.leb (Denom a) (Denom b) = true) coins.
Proof.
  induction 1 as [| coin rest Hrest IH Hhd]; constructor; [exact IH |].
  destruct Hhd as [| next rest' Hlt]; constructor.
  apply denom_lt_leb. exact Hlt.
Qed.

(** An amount that passes the three checks of the keeper is
    canonical: none of the defects the specification lists. *)
Lemma checks_canonical amount :
  IsValid amount = true -> IsPositive amount = true ->
  amount <> [] /\ ~ duplicate_denoms amount /\ ~ unsorted amount /\
  ~ zero_quantity amount /\ ~ not_strictly_positive amount.
Proof.
  intros Hvalid Hpos. apply IsPositive_Forall in Hpos as [Hne Hall].
  unfold duplicate_denoms, unsorted, zero_quantity, not_strictly_positive.
  repeat split.
  - exact Hne.
  - intros Hdup. apply Hdup, IsValid_NoDup, Hvalid.
  - intros Hun. apply Hun, Sorted_lt_leb, IsValid_Sorted, Hvalid.
  - rewrite Exists_exists. intros (c & Hc & Hz).
    rewrite Forall_forall in Hall. specialize (Hall c Hc). lia.
  - rewrite Exists_exists. intros (c & Hc & Hz).
    rewrite Forall_forall in Hall. specialize (Hall c Hc). lia.
Qed.

End coin_facts.

(* ===================================================================== *)
(** ** More coin arithmetic: sorted coins                                *)
(* ===================================================================== *)

Section sorted_coins.

Lemma HdRel_denom_eq (a b : Coin) (l : Coins) :
  Denom a = Denom b -> HdRel denom_lt a l -> HdRel denom_lt b l.
Proof.
  intros Heq Hhd. destruct Hhd as [| c l Hlt]; constructor.
  unfold denom_lt in *. rewrite <- Heq. exact Hlt.
Qed.

Lemma HdRel_denom_lt_trans (lo a : Coin) (l : Coins) :
  denom_lt lo a -> HdRel denom_lt a l -> HdRel denom_lt lo l.
Proof.
  intros Hlo Hhd. destruct Hhd as [| c l Hlt]; constructor.
  eapply denom_lt_trans; eassumption.
Qed.

Lemma compare_Gt_lt s1 s2 : String.compare s1 s2 = Gt -> String.compare s2 s1 = Lt.
Proof. intros Hgt. rewrite String.compare_antisym, Hgt. reflexivity. Qed.

(** The merge of two lists in strictly increasing order of denomination
    is in strictly increasing order, and starts no lower than they do. *)
Lemma Plus_Sorted : forall coins coinsB,
  Sorted denom_lt coins -> Sorted denom_lt coinsB ->
  Sorted denom_lt (Plus coins coinsB)
  /\ forall lo, HdRel denom_lt lo coins -> HdRel denom_lt lo coinsB ->
                HdRel denom_lt lo (Plus coins coinsB).
Proof.
  induction coins as [| coinA restA IHA]; [intros; split; auto |].
  induction coinsB as [| coinB restB IHB]; intros HA HB.
  - rewrite Plus_nil_r. split; auto.
  - rewrite Plus_cons.
    pose proof (Sorted_inv HA) as [HsA HhA].
    pose proof (Sorted_inv HB) as [HsB HhB].
    destruct (String.compare (Denom coinA) (Denom coinB)) eqn:Hcmp.
    + apply String.compare_eq_iff in Hcmp.
      destruct (IHA restB HsA HsB) as [Hsorted Hhd].
      destruct (Amount coinA + Amount coinB =? 0).
      * split; [exact Hsorted |].
        intros lo HloA HloB. apply HdRel_inv in HloA, HloB.
        apply Hhd.
        -- exact (HdRel_denom_lt_trans lo coinA restA HloA HhA).
        -- exact (HdRel_denom_lt_trans lo coinB restB HloB HhB).
      * rewrite Coin_Plus_same by exact Hcmp. split.
        -- constructor; [exact Hsorted |].
           apply (HdRel_denom_eq coinA); [reflexivity |].
           apply Hhd; [exact HhA |].
           apply (HdRel_denom_eq coinB); [symmetry; exact Hcmp | exact HhB].
        -- intros lo HloA _. apply HdRel_inv in HloA. constructor. exact HloA.
    + destruct (IHA (coinB :: restB) HsA HB) as [Hsorted Hhd]. split.
      * constructor; [exact Hsorted |].
        apply Hhd; [exact HhA | constructor; exact Hcmp].
      * intros lo HloA _. apply HdRel_inv in HloA. constructor. exact HloA.
    + destruct (IHB HA HsB) as [Hsorted Hhd]. split.
      * constructor; [exact Hsorted |].
        apply Hhd; [constructor; apply compare_Gt_lt; exact Hcmp | exact HhB].
      * intros lo _ HloB. apply HdRel_inv in HloB. constructor. exact HloB.
Qed.

Lemma Negative_Sorted coins :
  Sorted denom_lt coins -> Sorted denom_lt (Negative coins).
Proof.
  induction 1 as [| coin rest Hrest IH Hhd]; cbn [Negative map]; constructor.
  - exact IH.
  - destruct Hhd as [| next rest' Hlt]; cbn [map]; constructor. exact Hlt.
Qed.

Lemma Minus_Sorted coins coinsB :
  Sorted denom_lt coins -> Sorted denom_lt coinsB ->
  Sorted denom_lt (Minus coins coinsB).
Proof.
  intros HA HB. apply Plus_Sorted; [exact HA | apply Negative_Sorted; exact HB].
Qed.

(** In a list without a repeated denomination, a coin is all there is
    of its denomination. *)
Lemma AmountOf_NoDup coins coin :
  NoDup (map Denom coins) -> In coin coins ->
  AmountOf (Denom coin) coins = Amount coin.
Proof.
  induction coins as [| c rest IH]; intros Hnd Hin; [destruct Hin |].
  cbn [map] in Hnd. apply NoDup_cons in Hnd as [Hnotin Hnd].
  cbn [AmountOf]. destruct Hin as [-> | Hin].
  - rewrite String.eqb_refl.
    assert (AmountOf (Denom coin) rest = 0) as ->; [| lia].
    clear IH Hnd. induction rest as [| c' rest IH]; [reflexivity |].
    cbn [map] in Hnotin. apply not_elem_of_cons in Hnotin as [Hne Hnotin].
    cbn [AmountOf]. rewrite IH by exact Hnotin.
    destruct (String.eqb_spec (Denom c') (Denom coin)); [congruence | reflexivity].
  - rewrite IH by assumption.
    destruct (String.eqb_spec (Denom c) (Denom coin)) as [Heq | _]; [| lia].
    exfalso. apply Hnotin. rewrite Heq.
    apply list_elem_of_In, in_map. exact Hin.
Qed.

Lemma Sorted_NoDup coins : Sorted denom_lt coins -> NoDup (map Denom coins).
Proof.
  intros Hsorted. apply StronglySorted_NoDup, Sorted_StronglySorted.
  - intros a b c. apply denom_lt_trans.
  - exact Hsorted.
Qed.

(** For sorted coins, "no negative entry" is "no negative total". *)
Lemma IsNotNegative_Sorted_iff coins :
  Sorted denom_lt coins ->
  IsNotNegative coins = true <-> forall denom, 0 <= AmountOf denom coins.
Proof.
  intros Hsorted. split.
  - intros Hnn denom. apply IsNotNegative_AmountOf. exact Hnn.
  - intros Hall. unfold IsNotNegative. apply forallb_forall. intros coin Hin.
    unfold Coin_IsNotNegative. apply Z.leb_le.
    rewrite <- (AmountOf_NoDup coins coin); [apply Hall | | exact Hin].
    apply Sorted_NoDup. exact Hsorted.
Qed.

(** Between sorted coins, the difference has no negative entry exactly
    when nothing is taken that is not there. *)
Lemma Minus_IsNotNegative_iff coins coinsB :
  Sorted denom_lt coins -> Sorted denom_lt coinsB ->
  IsNotNegative (Minus coins coinsB) = true
  <-> forall denom, AmountOf denom coinsB <= AmountOf denom coins.
Proof.
  intros HA HB. rewrite IsNotNegative_Sorted_iff by (apply Minus_Sorted; assumption).
  split; intros Hall denom; specialize (Hall denom);
    rewrite AmountOf_Minus in *; lia.
Qed.

End sorted_coins.

(* ===================================================================== *)
(** ** The two codecs and their laws                                     *)
(* ===================================================================== *)



Lemma amino_drops_fields : codec_drops_fields amino.cdc.
Proof.
  split.
  - intros pych. exists amino.struct_bytes. split; reflexivity.
  - intros bz pych. cbn. case_decide; congruence.
Qed.

Lemma amino_marshals : codec_marshals amino.cdc.
Proof. intros pych. eexists. reflexivity. Qed.

Lemma roundtrip_marshals cdc : codec_roundtrip cdc -> codec_marshals cdc.
Proof. intros Hrt pych. destruct (Hrt pych) as (bz & Henc & _). eauto. Qed.


(* ===================================================================== *)
(** ** The keeper                                                        *)
(* ===================================================================== *)

Ltac keeper_unfold :=
  unfold rejected, bank.SubtractCoins, bank.AddCoins,
    store_Get, store_Set, store_Delete, must, bind, ret in *.

Section keeper_facts.

Context {cdc : Codec}.

Lemma len_nil_iff {A} (l : list A) : (len l =? 0) = true <-> l = [].
Proof.
  unfold len. rewrite Z.eqb_eq. destruct l; cbn [length]; split; intros H;
    try reflexivity; try discriminate; lia.
Qed.

Lemma len_nonempty {A} (l : list A) : l <> [] -> (len l =? 0) = false.
Proof.
  intros Hne. destruct (len l =? 0) eqn:Hlen; [| reflexivity].
  apply len_nil_iff in Hlen. contradiction.
Qed.

Lemma len_empty {A} : (len (@nil A) =? 0) = true.
Proof. reflexivity. Qed.

(** No channel is ever listed, so the id is always the same. *)
Lemma nextId_1 sender receiver : nextId sender receiver = 1.
Proof. reflexivity. Qed.

Lemma GetPaychan_absent ctx sender receiver id :
  KVStore ctx !! paychanKey sender receiver id = None ->
  GetPaychan sender receiver id ctx = Some ((zeroPaychan, false), ctx).
Proof. intros Hnone. unfold GetPaychan. keeper_unfold. rewrite Hnone. reflexivity. Qed.

Lemma GetPaychan_present ctx sender receiver id bz pych :
  KVStore ctx !! paychanKey sender receiver id = Some bz ->
  MustUnmarshalBinary bz = Some pych ->
  GetPaychan sender receiver id ctx = Some ((pych, true), ctx).
Proof.
  intros Hsome Hdec. unfold GetPaychan. keeper_unfold.
  rewrite Hsome, Hdec. reflexivity.
Qed.

(** [ClosePaychan] once its arguments have passed the validation. *)
Lemma ClosePaychan_validated ctx sender receiver id receiverAmount :
  sender <> [] -> receiver <> [] -> receiverAmount <> [] -> 0 <= id ->
  IsValid receiverAmount = true -> IsPositive receiverAmount = true ->
  ClosePaychan sender receiver id receiverAmount ctx =
  match KVStore ctx !! paychanKey sender receiver id with
  | None => rejected (ErrUnknownAddress "paychan not found") ctx
  | Some bz =>
      match MustUnmarshalBinary bz with
      | None => None
      | Some pych =>
          let senderAmount := Minus (balance pych) receiverAmount in
          if IsNotNegative senderAmount then
            Some ((NewTags, None),
                  mkContext
                    (delete (paychanKey (types.sender pych) (types.receiver pych)
                               (types.id pych)) (KVStore ctx))
                    (bank.addCoins
                       (bank.addCoins (accounts ctx) sender senderAmount).1
                       receiver receiverAmount).1)
          else rejected (ErrInsufficientFunds (Coins_String (balance pych))) ctx
      end
  end.
Proof.
  intros Hs Hr Ha Hid Hvalid Hpos. unfold ClosePaychan.
  rewrite (len_nonempty _ Hs), (len_nonempty _ Hr), (len_nonempty _ Ha).
  destruct (Z.ltb_spec id 0) as [Hneg | _]; [lia |].
  rewrite Hvalid, Hpos. cbn [negb].
  unfold GetPaychan. keeper_unfold.
  destruct (KVStore ctx !! paychanKey sender receiver id) as [bz |]; [| reflexivity].
  destruct (MustUnmarshalBinary bz) as [pych |]; [| reflexivity].
  cbn [negb].
  destruct (IsNotNegative (Minus (balance pych) receiverAmount)); [| reflexivity].
  cbn [negb accounts KVStore].
  destruct (bank.addCoins (accounts ctx) sender _) as [am1 r1].
  cbn [accounts KVStore fst].
  destruct (bank.addCoins am1 receiver receiverAmount) as [am2 r2].
  reflexivity.
Qed.

(** A call that does not pass the validation is turned down, and
    nothing has been touched. *)
Lemma ClosePaychan_not_validated ctx sender receiver id receiverAmount :
  sender = [] \/ receiver = [] \/ receiverAmount = [] \/ id < 0 \/
  IsValid receiverAmount = false \/ IsPositive receiverAmount = false ->
  exists e, ClosePaychan sender receiver id receiverAmount ctx = rejected e ctx /\
            (Code e = CodeInvalidAddress \/ Code e = CodeInvalidCoins).
Proof.
  intros Hbad. unfold ClosePaychan.
  destruct (len sender =? 0) eqn:Hs; [eexists; split; [reflexivity | left; reflexivity] |].
  destruct (len receiver =? 0) eqn:Hr; [eexists; split; [reflexivity | left; reflexivity] |].
  destruct (len receiverAmount =? 0) eqn:Ha;
    [eexists; split; [reflexivity | right; reflexivity] |].
  destruct (Z.ltb_spec id 0) as [Hneg | Hid];
    [eexists; split; [reflexivity | left; reflexivity] |].
  destruct (IsValid receiverAmount) eqn:Hvalid; cbn [negb];
    [| eexists; split; [reflexivity | right; reflexivity]].
  destruct (IsPositive receiverAmount) eqn:Hpos; cbn [negb];
    [| eexists; split; [reflexivity | right; reflexivity]].
  exfalso. destruct Hbad as [-> | [-> | [-> | [Hlt | [Hf | Hf]]]]];
    try discriminate; lia.
Qed.

Lemma validated_or_not (sender receiver : Address) id (receiverAmount : Coins) :
  (sender <> [] /\ receiver <> [] /\ receiverAmount <> [] /\ 0 <= id /\
   IsValid receiverAmount = true /\ IsPositive receiverAmount = true) \/
  (sender = [] \/ receiver = [] \/ receiverAmount = [] \/ id < 0 \/
   IsValid receiverAmount = false \/ IsPositive receiverAmount = false).
Proof.
  destruct sender; [tauto |]. destruct receiver; [tauto |].
  destruct receiverAmount; [tauto |].
  destruct (Z.lt_ge_cases id 0); [tauto |].
  destruct (IsValid _); [| tauto]. destruct (IsPositive _); [| tauto].
  left. repeat split; (discriminate || assumption).
Qed.

(** What a successful [ClosePaychan] has found and done. *)
Lemma ClosePaychan_success_inv ctx sender receiver id receiverAmount tags ctx' :
  ClosePaychan sender receiver id receiverAmount ctx = Some ((tags, None), ctx') ->
  sender <> [] /\ receiver <> [] /\ 0 <= id /\
  IsValid receiverAmount = true /\ IsPositive receiverAmount = true /\
  exists bz pych,
    KVStore ctx !! paychanKey sender receiver id = Some bz /\
    MustUnmarshalBinary bz = Some pych /\
    IsNotNegative (Minus (balance pych) receiverAmount) = true /\
    tags = NewTags /\
    ctx' = mkContext
             (delete (paychanKey (types.sender pych) (types.receiver pych)
                        (types.id pych)) (KVStore ctx))
             (bank.addCoins
                (bank.addCoins (accounts ctx) sender
                   (Minus (balance pych) receiverAmount)).1
                receiver receiverAmount).1.
Proof.
  intros Hclose.
  destruct (validated_or_not sender receiver id receiverAmount)
    as [(Hs & Hr & Ha & Hid & Hvalid & Hpos) | Hbad].
  - rewrite ClosePaychan_validated in Hclose by assumption.
    repeat (split; [assumption |]).
    destruct (KVStore ctx !! paychanKey sender receiver id) as [bz |];
      [| discriminate].
    destruct (MustUnmarshalBinary bz) as [pych |] eqn:Hdec; [| discriminate].
    cbn zeta in Hclose.
    destruct (IsNotNegative (Minus (balance pych) receiverAmount)) eqn:Hnn;
      [| discriminate].
    injection Hclose as <- <-. exists bz, pych. repeat split; assumption.
  - destruct (ClosePaychan_not_validated ctx _ _ _ _ Hbad) as (e & He & _).
    rewrite He in Hclose. discriminate.
Qed.

(** [CreatePaychan] once its arguments have passed the validation. *)
Lemma CreatePaychan_validated ctx sender receiver amount :
  sender <> [] -> receiver <> [] ->
  IsValid amount = true -> IsPositive amount = true ->
  CreatePaychan sender receiver amount ctx =
  if IsNotNegative (Minus (bank.getCoins (accounts ctx) sender) amount) then
    match MustMarshalBinary
            (mkPaychan sender receiver (nextId sender receiver) amount) with
    | None => None
    | Some bz =>
        Some (([("sender"%string, sender)], None),
              mkContext
                (<[paychanKey sender receiver (nextId sender receiver) := bz]>
                   (KVStore ctx))
                (debit sender amount (accounts ctx)))
    end
  else
    rejected
      (ErrInsufficientCoins
         (Coins_String (bank.getCoins (accounts ctx) sender) ++ " < "
          ++ Coins_String amount)%string) ctx.
Proof.
  intros Hs Hr Hvalid Hpos. unfold CreatePaychan. destruct ctx as [kv am].
  assert (amount <> []) as Ha by (apply IsPositive_Forall in Hpos; tauto).
  rewrite (len_nonempty _ Hs), (len_nonempty _ Hr), (len_nonempty _ Ha).
  rewrite Hvalid, Hpos. cbn [negb].
  unfold setPaychan. keeper_unfold. unfold bank.subtractCoins.
  cbn [accounts KVStore].
  destruct (IsNotNegative (Minus (bank.getCoins am sender) amount));
    cbn [negb]; [| reflexivity].
  cbn [types.sender types.receiver types.id KVStore accounts].
  destruct (MustMarshalBinary _); reflexivity.
Qed.

Lemma CreatePaychan_not_validated ctx sender receiver amount :
  sender = [] \/ receiver = [] \/ amount = [] \/
  IsValid amount = false \/ IsPositive amount = false ->
  exists e, CreatePaychan sender receiver amount ctx = rejected e ctx /\
            (Code e = CodeInvalidAddress \/ Code e = CodeInvalidCoins).
Proof.
  intros Hbad. unfold CreatePaychan.
  destruct (len sender =? 0) eqn:Hs; [eexists; split; [reflexivity | left; reflexivity] |].
  destruct (len receiver =? 0) eqn:Hr; [eexists; split; [reflexivity | left; reflexivity] |].
  destruct (len amount =? 0) eqn:Ha;
    [eexists; split; [reflexivity | right; reflexivity] |].
  destruct (IsValid amount) eqn:Hvalid; cbn [negb];
    [| eexists; split; [reflexivity | right; reflexivity]].
  destruct (IsPositive amount) eqn:Hpos; cbn [negb];
    [| eexists; split; [reflexivity | right; reflexivity]].
  exfalso. destruct Hbad as [-> | [-> | [-> | [Hf | Hf]]]]; discriminate.
Qed.

Lemma create_validated_or_not (sender receiver : Address) (amount : Coins) :
  (sender <> [] /\ receiver <> [] /\
   IsValid amount = true /\ IsPositive amount = true) \/
  (sender = [] \/ receiver = [] \/ amount = [] \/
   IsValid amount = false \/ IsPositive amount = false).
Proof.
  destruct sender; [tauto |]. destruct receiver; [tauto |].
  destruct (IsValid _); [| tauto]. destruct (IsPositive _); [| tauto].
  left. repeat split; discriminate.
Qed.

(** What a successful [CreatePaychan] has checked and done. *)
Lemma CreatePaychan_success_inv ctx sender receiver amount tags ctx' :
  CreatePaychan sender receiver amount ctx = Some ((tags, None), ctx') ->
  sender <> [] /\ receiver <> [] /\
  IsValid amount = true /\ IsPositive amount = true /\
  IsNotNegative (Minus (bank.getCoins (accounts ctx) sender) amount) = true /\
  exists bz,
    MustMarshalBinary (mkPaychan sender receiver (nextId sender receiver) amount)
    = Some bz /\
    ctx' = mkContext
             (<[paychanKey sender receiver (nextId sender receiver) := bz]>
                (KVStore ctx))
             (debit sender amount (accounts ctx)).
Proof.
  intros Hcreate.
  destruct (create_validated_or_not sender receiver amount)
    as [(Hs & Hr & Hvalid & Hpos) | Hbad].
  - rewrite CreatePaychan_validated in Hcreate by assumption.
    repeat (split; [assumption |]).
    destruct (IsNotNegative _) eqn:Hnn; [| discriminate].
    split; [reflexivity |].
    destruct (MustMarshalBinary _) as [bz |] eqn:Henc; [| discriminate].
    injection Hcreate as <- <-. exists bz. split; reflexivity.
  - destruct (CreatePaychan_not_validated ctx _ _ _ Hbad) as (e & He & _).
    rewrite He in Hcreate. discriminate.
Qed.

(** A call that returns an error has changed nothing. *)
Lemma CreatePaychan_error_unchanged ctx sender receiver amount tags e ctx' :
  CreatePaychan sender receiver amount ctx = Some ((tags, Some e), ctx') ->
  ctx' = ctx /\ tags = [].
Proof.
  intros Hcreate.
  destruct (create_validated_or_not sender receiver amount)
    as [(Hs & Hr & Hvalid & Hpos) | Hbad].
  - rewrite CreatePaychan_validated in Hcreate by assumption.
    destruct (IsNotNegative _).
    + destruct (MustMarshalBinary _); discriminate.
    + injection Hcreate as <- _ <-. split; reflexivity.
  - destruct (CreatePaychan_not_validated ctx _ _ _ Hbad) as (e' & He & _).
    rewrite He in Hcreate. injection Hcreate as <- _ <-. split; reflexivity.
Qed.

Lemma ClosePaychan_error_unchanged ctx sender receiver id receiverAmount tags e ctx' :
  ClosePaychan sender receiver id receiverAmount ctx = Some ((tags, Some e), ctx') ->
  ctx' = ctx /\ tags = [].
Proof.
  intros Hclose.
  destruct (validated_or_not sender receiver id receiverAmount)
    as [(Hs & Hr & Ha & Hid & Hvalid & Hpos) | Hbad].
  - rewrite ClosePaychan_validated in Hclose by assumption.
    destruct (KVStore ctx !! paychanKey sender receiver id) as [bz |].
    + destruct (MustUnmarshalBinary bz) as [pych |]; [| discriminate].
      cbn zeta in Hclose. destruct (IsNotNegative _); [discriminate |].
      injection Hclose as <- _ <-. split; reflexivity.
    + injection Hclose as <- _ <-. split; reflexivity.
  - destruct (ClosePaychan_not_validated ctx _ _ _ _ Hbad) as (e' & He & _).
    rewrite He in Hclose. injection Hclose as <- _ <-. split; reflexivity.
Qed.

Section with_roundtrip.

Hypothesis Hcdc : codec_roundtrip cdc.


End with_roundtrip.

End keeper_facts.
(* ===================================================================== *)
(** ** Properties of the key and of the lookup                           *)
(* ===================================================================== *)

(** C9: [paychanKey] is a function of its three arguments and nothing
    else: the key is the bytes of the sender, then the bytes of the
    receiver, then the bytes of [Itoa id]; [Itoa id] is the decimal
    numeral of [id] (read back, it is [id]); equal arguments give
    equal keys. *)
Theorem paychanKey_concat (sender receiver : Address) (id : Z) :
  paychanKey sender receiver id
  = sender ++ receiver ++ list_byte_of_string (strconv.Itoa id)
  /\ strconv.Atoi (strconv.Itoa id) = Some id
  /\ strconv.Atoi
       (string_of_list_byte
          (drop (length sender + length receiver) (paychanKey sender receiver id)))
     = Some id
  /\ forall sender' receiver' id',
       sender' = sender -> receiver' = receiver -> id' = id ->
       paychanKey sender' receiver' id' = paychanKey sender receiver id.
Proof.
  assert (paychanKey sender receiver id
          = sender ++ receiver ++ list_byte_of_string (strconv.Itoa id)) as Hkey.
  { unfold paychanKey. rewrite <- app_assoc. reflexivity. }
  split; [exact Hkey |]. split; [apply Atoi_Itoa |]. split.
  - rewrite Hkey, app_assoc, drop_app_length'.
    + rewrite string_of_list_byte_of_string. apply Atoi_Itoa.
    + rewrite length_app. reflexivity.
  - intros sender' receiver' id' -> -> ->. reflexivity.
Qed.

Lemma paychanKey_concat_witness :
  paychanKey scenario.S scenario.R 1 = [x53; x52; x31]
  /\ paychanKey scenario.S scenario.R (-12) = [x53; x52; x2d; x31; x32].
Proof.
  split.
  - rewrite (proj1 (paychanKey_concat scenario.S scenario.R 1)). reflexivity.
  - rewrite (proj1 (paychanKey_concat scenario.S scenario.R (-12))). reflexivity.
Defined.

Section lookup.

Context {cdc : Codec}.

(** C10: [GetPaychan] checks nothing about its arguments.  For every
    sender, receiver and id, empty addresses and negative ids
    included, its result is read off the store at the bytes of the
    sender, then of the receiver, then of the decimal id: the zero
    channel and [false] when nothing is there, what the value
    unmarshals to and [true] when something is, and the context as it
    was.  The same arguments, when an address is empty or the id
    negative, make [ClosePaychan] return an invalid-address or
    invalid-coins error, and an empty address makes [CreatePaychan]
    return the invalid-address error. *)
Theorem GetPaychan_no_validation
    (ctx : Context) (sender receiver : Address) (id : Z) :
  GetPaychan sender receiver id ctx
  = match KVStore ctx !! (sender ++ receiver ++ list_byte_of_string (strconv.Itoa id)) with
    | None => Some ((zeroPaychan, false), ctx)
    | Some bz =>
        match MustUnmarshalBinary bz with
        | Some pych => Some ((pych, true), ctx)
        | None => None
        end
    end
  /\ (sender = [] \/ receiver = [] \/ id < 0 ->
      forall receiverAmount, exists e,
        ClosePaychan sender receiver id receiverAmount ctx = rejected e ctx
        /\ (Code e = CodeInvalidAddress \/ Code e = CodeInvalidCoins))
  /\ (sender = [] \/ receiver = [] ->
      forall amount,
        CreatePaychan sender receiver amount ctx
        = rejected (ErrInvalidAddress "") ctx).
Proof.
  split; [| split].
  - unfold GetPaychan, paychanKey. keeper_unfold. rewrite <- app_assoc.
    destruct (KVStore ctx !! _) as [bz |]; [| reflexivity].
    destruct (MustUnmarshalBinary bz); reflexivity.
  - intros Hbad receiverAmount.
    apply ClosePaychan_not_validated. tauto.
  - intros Hbad amount. unfold CreatePaychan.
    destruct Hbad as [-> | ->]; [reflexivity |].
    destruct (len sender =? 0) eqn:Hs; [| reflexivity].
    apply len_nil_iff in Hs. subst sender. reflexivity.
Qed.

Section program_codec.

Hypothesis Hdrop : codec_drops_fields cdc.

Lemma marshalled_zero pych bz :
  MustMarshalBinary pych = Some bz -> MustUnmarshalBinary bz = Some zeroPaychan.
Proof.
  intros Henc. destruct (proj1 Hdrop pych) as (bz' & Henc' & Hdec). congruence.
Qed.

(** C8, the code at work: with the program's codec, which sees none of
    the fields of [Paychan], a channel written by [setPaychan] is not
    read back: for the key it was written under, [GetPaychan] returns
    [true] together with the zero channel, whatever the channel was;
    so it does after a successful [CreatePaychan].  (For a key that
    is not in the store it returns the zero channel and [false].) *)
Theorem GetPaychan_loses_fields
    (ctx ctx' : Context) (pych : Paychan) :
  setPaychan pych ctx = Some (tt, ctx') ->
  GetPaychan (types.sender pych) (types.receiver pych) (types.id pych) ctx'
  = Some ((zeroPaychan, true), ctx')
  /\ (pych <> zeroPaychan ->
      GetPaychan (types.sender pych) (types.receiver pych) (types.id pych) ctx'
      <> Some ((pych, true), ctx'))
  /\ (forall sender receiver id,
        KVStore ctx' !! paychanKey sender receiver id = None ->
        GetPaychan sender receiver id ctx' = Some ((zeroPaychan, false), ctx')).
Proof.
  intros Hset. unfold setPaychan in Hset. keeper_unfold.
  destruct (MustMarshalBinary pych) as [bz |] eqn:Henc; [| discriminate].
  injection Hset as <-.
  assert (GetPaychan (types.sender pych) (types.receiver pych) (types.id pych)
            (mkContext
               (<[paychanKey (types.sender pych) (types.receiver pych) (types.id pych)
                  := bz]> (KVStore ctx)) (accounts ctx))
          = Some ((zeroPaychan, true),
                  mkContext
                    (<[paychanKey (types.sender pych) (types.receiver pych)
                         (types.id pych) := bz]> (KVStore ctx)) (accounts ctx)))
    as Hget.
  { eapply GetPaychan_present; [| exact (marshalled_zero _ _ Henc)].
    cbn [KVStore]. apply lookup_insert_eq. }
  split; [exact Hget |]. split.
  - intros Hne. rewrite Hget. intros Heq. injection Heq as Heq. congruence.
  - intros sender receiver id. apply GetPaychan_absent.
Qed.

End program_codec.

End lookup.

Lemma GetPaychan_no_validation_witness :
  GetPaychan (cdc := amino.cdc) [] [] (-1) program.ctx_minus1
  = Some ((zeroPaychan, true), program.ctx_minus1)
  /\ GetPaychan (cdc := amino.cdc) [] [] (-1) program.ctx1
     = Some ((zeroPaychan, false), program.ctx1)
  /\ exists e,
       ClosePaychan (cdc := amino.cdc) [] [] (-1) (scenario.gold 1) program.ctx_minus1
       = rejected e program.ctx_minus1.
Proof.
  split; [| split].
  - rewrite (proj1 (GetPaychan_no_validation (cdc := amino.cdc)
                      program.ctx_minus1 [] [] (-1))).
    vm_compute. reflexivity.
  - rewrite (proj1 (GetPaychan_no_validation (cdc := amino.cdc)
                      program.ctx1 [] [] (-1))).
    vm_compute. reflexivity.
  - destruct (proj1 (proj2 (GetPaychan_no_validation (cdc := amino.cdc)
                              program.ctx_minus1 [] [] (-1)))
                ltac:(left; reflexivity) (scenario.gold 1)) as (e & He & _).
    exists e. exact He.
Defined.

Lemma GetPaychan_loses_fields_witness :
  GetPaychan (cdc := amino.cdc) scenario.S scenario.R 1 program.ctx1
  = Some ((zeroPaychan, true), program.ctx1).
Proof.
  apply (GetPaychan_loses_fields (cdc := amino.cdc) amino_drops_fields
           (mkContext ∅ (accounts program.ctx1)) program.ctx1
           (mkPaychan scenario.S scenario.R 1 (scenario.gold 40))).
  vm_compute. reflexivity.
Defined.
(* ===================================================================== *)
(** ** Properties of the validation                                      *)
(* ===================================================================== *)

Section validation.

Context {cdc : Codec}.

(** C6: [CreatePaychan] checks its arguments in order and the first
    failure decides.  An empty sender gives the invalid-address
    error; otherwise an empty receiver gives the invalid-address
    error; otherwise an amount that is empty, lists a denomination
    twice, is not sorted, has a zero quantity or a quantity that is
    not strictly positive gives the invalid-coins error.  In each of
    these cases the context (store and accounts) is returned as it
    was. *)
Theorem CreatePaychan_validation
    (ctx : Context) (sender receiver : Address) (amount : Coins) :
  (sender = [] ->
   CreatePaychan sender receiver amount ctx
   = rejected (ErrInvalidAddress (Address_String sender)) ctx)
  /\ (sender <> [] -> receiver = [] ->
      CreatePaychan sender receiver amount ctx
      = rejected (ErrInvalidAddress (Address_String receiver)) ctx)
  /\ (sender <> [] -> receiver <> [] ->
      amount = [] \/ duplicate_denoms amount \/ unsorted amount \/
      zero_quantity amount \/ not_strictly_positive amount ->
      CreatePaychan sender receiver amount ctx
      = rejected (ErrInvalidCoins (Coins_String amount)) ctx).
Proof.
  split; [| split].
  - intros ->. reflexivity.
  - intros Hs ->. unfold CreatePaychan. rewrite (len_nonempty _ Hs). reflexivity.
  - intros Hs Hr Hbad. unfold CreatePaychan.
    rewrite (len_nonempty _ Hs), (len_nonempty _ Hr).
    destruct (len amount =? 0) eqn:Ha; [reflexivity |].
    destruct (IsValid amount) eqn:Hvalid; cbn [negb]; [| reflexivity].
    destruct (IsPositive amount) eqn:Hpos; cbn [negb]; [| reflexivity].
    exfalso.
    destruct (checks_canonical amount Hvalid Hpos)
      as (Hne & Hdup & Hun & Hzero & Hnpos).
    tauto.
Qed.

(** C7: when the arguments of [CreatePaychan] are valid and the
    debit of the amount from the sender's account fails, the call
    returns the error of the debit (insufficient coins), and the
    context is returned as it was: nothing is written to the store,
    and nothing to the accounts. *)
Theorem CreatePaychan_debit_failure
    (ctx : Context) (sender receiver : Address) (amount : Coins) (e : Error) :
  sender <> [] -> receiver <> [] ->
  IsValid amount = true -> IsPositive amount = true ->
  (bank.subtractCoins (accounts ctx) sender amount).2.2 = Some e ->
  CreatePaychan sender receiver amount ctx = rejected e ctx
  /\ Code e = CodeInsufficientCoins.
Proof.
  intros Hs Hr Hvalid Hpos Hdebit.
  rewrite CreatePaychan_validated by assumption.
  unfold bank.subtractCoins in *.
  destruct (IsNotNegative (Minus (bank.getCoins (accounts ctx) sender) amount))
    eqn:Hnn; cbn [negb snd] in *; [discriminate |].
  injection Hdebit as <-. split; reflexivity.
Qed.

(** The debit does fail when the sender holds too little of a
    denomination. *)
Lemma subtractCoins_insufficient am addr amt denom :
  AmountOf denom (bank.getCoins am addr) < AmountOf denom amt ->
  exists e, bank.subtractCoins am addr amt = (am, (amt, [], Some e)).
Proof.
  intros Hless. unfold bank.subtractCoins.
  destruct (IsNotNegative (Minus (bank.getCoins am addr) amt)) eqn:Hnn;
    cbn [negb]; [| eauto].
  apply (IsNotNegative_AmountOf denom) in Hnn.
  rewrite AmountOf_Minus in Hnn. lia.
Qed.

(** C5, as the code has it: with both addresses and the amount
    non-empty, a negative id makes [ClosePaychan] return the
    invalid-address error, carrying the decimal numeral of the id,
    and the context is returned as it was.  The keeper has no error
    of its own for a bad channel id. *)
Theorem ClosePaychan_negative_id
    (ctx : Context) (sender receiver : Address) (id : Z) (receiverAmount : Coins) :
  sender <> [] -> receiver <> [] -> receiverAmount <> [] -> id < 0 ->
  ClosePaychan sender receiver id receiverAmount ctx
  = rejected (ErrInvalidAddress (strconv.Itoa id)) ctx.
Proof.
  intros Hs Hr Ha Hid. unfold ClosePaychan.
  rewrite (len_nonempty _ Hs), (len_nonempty _ Hr), (len_nonempty _ Ha).
  destruct (Z.ltb_spec id 0) as [_ | Hge]; [reflexivity | lia].
Qed.

End validation.

Lemma CreatePaychan_validation_witness :
  CreatePaychan (cdc := amino.cdc) scenario.S scenario.R
    [mkCoin "gold" 1; mkCoin "gold" 2] scenario.ctx0
  = rejected (ErrInvalidCoins "1gold,2gold") scenario.ctx0.
Proof.
  apply (CreatePaychan_validation (cdc := amino.cdc));
    [discriminate | discriminate |].
  right. left. unfold duplicate_denoms. cbn [map Denom].
  intros Hnd. apply NoDup_cons in Hnd as [Hin _]. apply Hin. left.
Defined.

Lemma CreatePaychan_debit_failure_witness :
  CreatePaychan (cdc := amino.cdc) scenario.S scenario.R
    (scenario.gold 101) scenario.ctx0
  = rejected (ErrInsufficientCoins "100gold < 101gold") scenario.ctx0.
Proof.
  apply (CreatePaychan_debit_failure (cdc := amino.cdc));
    [discriminate | discriminate | reflexivity | reflexivity |].
  vm_compute. reflexivity.
Defined.

Lemma ClosePaychan_negative_id_witness :
  ClosePaychan (cdc := amino.cdc) scenario.S scenario.R (-1)
    (scenario.gold 15) program.ctx1
  = rejected (ErrInvalidAddress "-1") program.ctx1.
Proof.
  apply (ClosePaychan_negative_id (cdc := amino.cdc));
    [discriminate | discriminate | discriminate | lia].
Defined.

(** C5, as the specification has it, does not hold: the error a
    negative id gets is the one an empty address gets. *)
Lemma ClosePaychan_negative_id_not_distinct :
  ~ (exists e,
       ClosePaychan (cdc := amino.cdc) scenario.S scenario.R (-1)
         (scenario.gold 15) program.ctx1
       = rejected e program.ctx1
       /\ Code e <> CodeInvalidAddress /\ Code e <> CodeInvalidCoins).
Proof.
  intros (e & He & Hna & _). vm_compute in He.
  injection He as <-. apply Hna. reflexivity.
Qed.

(* ===================================================================== *)
(** ** Properties of closing                                             *)
(* ===================================================================== *)

Section closing.

Context {cdc : Codec}.

Lemma GetPaychan_found_inv ctx sender receiver id pych ctx' :
  GetPaychan sender receiver id ctx = Some ((pych, true), ctx') ->
  exists bz, KVStore ctx !! paychanKey sender receiver id = Some bz
             /\ MustUnmarshalBinary bz = Some pych.
Proof.
  unfold GetPaychan. keeper_unfold. intros Hget.
  destruct (KVStore ctx !! paychanKey sender receiver id) as [bz |];
    [| discriminate].
  destruct (MustUnmarshalBinary bz) as [p |] eqn:Hdec; [| discriminate].
  injection Hget as <- _. eauto.
Qed.

(** C4: when the channel of (sender, receiver, id) is in the store
    and the receiver's amount is above its balance in some
    denomination, [ClosePaychan] does not succeed: it returns an
    error and the context as it was (no credit, no delete).  When
    the arguments pass the validation, the error is the
    insufficient-funds error. *)
Theorem ClosePaychan_over_balance
    (ctx : Context) (sender receiver : Address) (id : Z)
    (receiverAmount : Coins) (pych : Paychan) (denom : string) :
  GetPaychan sender receiver id ctx = Some ((pych, true), ctx) ->
  AmountOf denom (balance pych) < AmountOf denom receiverAmount ->
  AmountOf denom (Minus (balance pych) receiverAmount) < 0
  /\ (exists e, ClosePaychan sender receiver id receiverAmount ctx = rejected e ctx)
  /\ (sender <> [] -> receiver <> [] -> receiverAmount <> [] -> 0 <= id ->
      IsValid receiverAmount = true -> IsPositive receiverAmount = true ->
      ClosePaychan sender receiver id receiverAmount ctx
      = rejected (ErrInsufficientFunds (Coins_String (balance pych))) ctx).
Proof.
  intros Hget Hover.
  apply GetPaychan_found_inv in Hget as (bz & Hlook & Hdec).
  assert (AmountOf denom (Minus (balance pych) receiverAmount) < 0) as Hneg
    by (rewrite AmountOf_Minus; lia).
  assert (IsNotNegative (Minus (balance pych) receiverAmount) = false) as Hnn.
  { destruct (IsNotNegative _) eqn:Hnn; [| reflexivity].
    apply (IsNotNegative_AmountOf denom) in Hnn. lia. }
  assert (sender <> [] -> receiver <> [] -> receiverAmount <> [] -> 0 <= id ->
          IsValid receiverAmount = true -> IsPositive receiverAmount = true ->
          ClosePaychan sender receiver id receiverAmount ctx
          = rejected (ErrInsufficientFunds (Coins_String (balance pych))) ctx)
    as Hvalidated.
  { intros Hs Hr Ha Hid Hvalid Hpos.
    rewrite ClosePaychan_validated by assumption.
    rewrite Hlook, Hdec. cbn zeta. rewrite Hnn. reflexivity. }
  split; [exact Hneg |]. split; [| exact Hvalidated].
  destruct (validated_or_not sender receiver id receiverAmount)
    as [(Hs & Hr & Ha & Hid & Hvalid & Hpos) | Hbad].
  - eexists. apply Hvalidated; assumption.
  - destruct (ClosePaychan_not_validated ctx _ _ _ _ Hbad) as (e & He & _). eauto.
Qed.

End closing.

Lemma ClosePaychan_over_balance_witness :
  ClosePaychan (cdc := amino.cdc) scenario.S scenario.R 1
    (scenario.gold 41) program.ctx1
  = rejected (ErrInsufficientFunds "") program.ctx1.
Proof.
  apply (ClosePaychan_over_balance (cdc := amino.cdc) program.ctx1
           scenario.S scenario.R 1 (scenario.gold 41) zeroPaychan "gold");
    try discriminate; vm_compute; reflexivity.
Defined.

(* ===================================================================== *)
(** ** The id of a new channel                                           *)
(* ===================================================================== *)

Section conservation.

Context {cdc : Codec}.
Hypothesis Hcdc : codec_roundtrip cdc.



End conservation.


(* ===================================================================== *)
(** ** The life of a channel with the program's codec                   *)
(* ===================================================================== *)

Section program_run.

Context {cdc : Codec}.
Hypothesis Hdrop : codec_drops_fields cdc.






End program_run.


(* ===================================================================== *)
(** ** More on the key                                                   *)
(* ===================================================================== *)

Lemma list_byte_of_string_inj s1 s2 :
  list_byte_of_string s1 = list_byte_of_string s2 -> s1 = s2.
Proof.
  intros Heq. apply (f_equal string_of_list_byte) in Heq.
  rewrite !string_of_list_byte_of_string in Heq. exact Heq.
Qed.

(** X1: between addresses of the same lengths the key tells channels
    apart: equal keys come from the same sender, the same receiver and
    the same id. *)
Theorem paychanKey_injective (sender receiver sender' receiver' : Address) (id id' : Z) :
  length sender = length sender' ->
  length receiver = length receiver' ->
  paychanKey sender receiver id = paychanKey sender' receiver' id' ->
  sender = sender' /\ receiver = receiver' /\ id = id'.
Proof.
  intros Hls Hlr Hkey. unfold paychanKey in Hkey. rewrite <- !app_assoc in Hkey.
  apply app_inj_1 in Hkey as [Hs Hkey]; [| exact Hls].
  apply app_inj_1 in Hkey as [Hr Hid]; [| exact Hlr].
  apply list_byte_of_string_inj, Itoa_inj in Hid. auto.
Qed.

Lemma paychanKey_injective_witness :
  scenario.S = scenario.S /\ scenario.R = scenario.R /\ 1 = 1.
Proof.
  apply (paychanKey_injective scenario.S scenario.R scenario.S scenario.R 1 1);
    reflexivity.
Defined.

(** Addresses of other lengths can share a key: bytes may move from
    the end of the sender to the start of the receiver. *)
Lemma paychanKey_shift (sender x receiver : Address) (id : Z) :
  paychanKey (sender ++ x) receiver id = paychanKey sender (x ++ receiver) id.
Proof. unfold paychanKey. rewrite <- !app_assoc. reflexivity. Qed.

(* ===================================================================== *)
(** ** What a call touches                                               *)
(* ===================================================================== *)

Section frames.

Context {cdc : Codec}.


(** X2: a successful [CreatePaychan] writes one key of the store and
    one account.  The store afterwards is the store before with what
    the channel (sender, receiver, 1, amount) marshals to under the
    key of (sender, receiver, 1); the accounts afterwards are the
    accounts before with the sender's coins less the amount; every
    other key and every other account is as before.  The tags are the
    one of the bank's debit, carrying the bytes of the sender. *)
Theorem CreatePaychan_frame
    (ctx ctx' : Context) (sender receiver : Address) (amount : Coins) (tags : Tags) :
  CreatePaychan sender receiver amount ctx = Some ((tags, None), ctx') ->
  (exists bz,
     MustMarshalBinary (mkPaychan sender receiver 1 amount) = Some bz
     /\ KVStore ctx' = <[paychanKey sender receiver 1 := bz]> (KVStore ctx)
     /\ KVStore ctx' !! paychanKey sender receiver 1 = Some bz)
  /\ (forall key, key <> paychanKey sender receiver 1 ->
                  KVStore ctx' !! key = KVStore ctx !! key)
  /\ accounts ctx'
     = <[sender := Minus (bank.getCoins (accounts ctx) sender) amount]> (accounts ctx)
  /\ (forall addr, addr <> sender -> accounts ctx' !! addr = accounts ctx !! addr)
  /\ accounts ctx' !! sender = Some (Minus (bank.getCoins (accounts ctx) sender) amount)
  /\ tags = [("sender"%string, sender)].
Proof.
  intros Hcreate.
  destruct (create_validated_or_not sender receiver amount)
    as [(Hs & Hr & Hvalid & Hpos) | Hbad].
  - rewrite CreatePaychan_validated in Hcreate by assumption.
    destruct (IsNotNegative _); [| discriminate].
    rewrite nextId_1 in Hcreate.
    destruct (MustMarshalBinary _) as [bz |]; [| discriminate].
    injection Hcreate as <- <-. cbn [KVStore accounts].
    split; [| split; [| split; [| split; [| split]]]].
    + exists bz. split; [reflexivity |]. split; [reflexivity |].
      apply lookup_insert_eq.
    + intros key Hne. apply lookup_insert_ne. congruence.
    + reflexivity.
    + intros addr Hne. unfold debit. apply lookup_insert_ne. congruence.
    + unfold debit. apply lookup_insert_eq.
    + reflexivity.
  - destruct (CreatePaychan_not_validated ctx _ _ _ Hbad) as (e & He & _).
    rewrite He in Hcreate. discriminate.
Qed.


(** X4: a call that returns an error has changed nothing.  Whenever
    [CreatePaychan] or [ClosePaychan] returns an error, the context it
    returns is the one it was given, and the tags are nil. *)
Theorem keeper_error_unchanged (ctx ctx' : Context) (tags : Tags) (e : Error) :
  (forall sender receiver amount,
     CreatePaychan sender receiver amount ctx = Some ((tags, Some e), ctx') ->
     ctx' = ctx /\ tags = [])
  /\ (forall sender receiver id receiverAmount,
        ClosePaychan sender receiver id receiverAmount ctx = Some ((tags, Some e), ctx') ->
        ctx' = ctx /\ tags = []).
Proof.
  split.
  - intros sender receiver amount. apply CreatePaychan_error_unchanged.
  - intros sender receiver id receiverAmount. apply ClosePaychan_error_unchanged.
Qed.

End frames.

Lemma CreatePaychan_frame_witness :
  KVStore program.ctx1 !! paychanKey scenario.S scenario.R 1 = Some amino.struct_bytes
  /\ accounts program.ctx1 !! scenario.S = Some (scenario.gold 60)
  /\ accounts program.ctx1 !! scenario.R = accounts scenario.ctx0 !! scenario.R.
Proof.
  destruct (CreatePaychan_frame (cdc := amino.cdc) scenario.ctx0 program.ctx1
              scenario.S scenario.R (scenario.gold 40)
              [("sender"%string, scenario.S)])
    as ((bz & Henc & _ & Hkey) & _ & _ & Hother & Hsender & _).
  - vm_compute. reflexivity.
  - injection Henc as <-.
    split; [exact Hkey |]. split; [exact Hsender | apply Hother; discriminate].
Defined.


Lemma keeper_error_unchanged_witness :
  program.ctx1 = program.ctx1 /\ @nil (string * bytes) = [].
Proof.
  apply (proj2 (keeper_error_unchanged (cdc := amino.cdc) program.ctx1 program.ctx1
                  [] (ErrInsufficientFunds ""))
           scenario.S scenario.R 1 (scenario.gold 41)).
  vm_compute. reflexivity.
Defined.
(* ===================================================================== *)
(** ** Who can close a channel                                           *)
(* ===================================================================== *)

Section closing_more.

Context {cdc : Codec}.

(** X5: the key does not tell apart addresses that run into each
    other.  The pair [sender ++ x], [receiver] has the key of the pair
    [sender], [x ++ receiver], so a lookup for one pair is the lookup
    for the other, in every context; and after a channel has been
    created from [sender] to [x ++ receiver], a channel created from
    [sender ++ x] to [receiver] is written over it: the store has no
    key more, and what is under the key is the second channel. *)
Theorem overlapping_addresses_share_key
    (ctx0 ctx1 ctx2 : Context) (sender x receiver : Address)
    (amount1 amount2 : Coins) (tags1 tags2 : Tags) :
  CreatePaychan sender (x ++ receiver) amount1 ctx0 = Some ((tags1, None), ctx1) ->
  CreatePaychan (sender ++ x) receiver amount2 ctx1 = Some ((tags2, None), ctx2) ->
  (forall ctx id,
     GetPaychan (sender ++ x) receiver id ctx = GetPaychan sender (x ++ receiver) id ctx)
  /\ KVStore ctx1 !! paychanKey sender (x ++ receiver) 1
     = MustMarshalBinary (mkPaychan sender (x ++ receiver) 1 amount1)
  /\ KVStore ctx2 !! paychanKey sender (x ++ receiver) 1
     = MustMarshalBinary (mkPaychan (sender ++ x) receiver 1 amount2)
  /\ is_Some (KVStore ctx2 !! paychanKey sender (x ++ receiver) 1)
  /\ dom (KVStore ctx2) = dom (KVStore ctx1).
Proof.
  intros Hfirst Hsecond.
  apply CreatePaychan_success_inv in Hfirst
    as (_ & _ & _ & _ & _ & bz1 & Henc1 & ->).
  apply CreatePaychan_success_inv in Hsecond
    as (_ & _ & _ & _ & _ & bz2 & Henc2 & ->).
  rewrite nextId_1 in *. cbn [KVStore]. rewrite paychanKey_shift.
  split; [| split; [| split; [| split]]].
  - intros ctx id. unfold GetPaychan. rewrite paychanKey_shift. reflexivity.
  - rewrite lookup_insert_eq. symmetry. exact Henc1.
  - rewrite lookup_insert_eq. symmetry. exact Henc2.
  - rewrite lookup_insert_eq. eauto.
  - rewrite !dom_insert_L, (assoc_L (∪)), union_idemp_L. reflexivity.
Qed.


(** X7: when [ClosePaychan] succeeds, in terms of amounts.  For a
    call that passes the validation and finds a channel whose balance
    is valid, the call succeeds exactly when the receiver's amount is
    within the balance in every denomination; otherwise it returns
    the insufficient-funds error. *)
Theorem ClosePaychan_succeeds_iff
    (ctx : Context) (sender receiver : Address) (id : Z)
    (receiverAmount : Coins) (pych : Paychan) :
  sender <> [] -> receiver <> [] -> 0 <= id ->
  IsValid receiverAmount = true -> IsPositive receiverAmount = true ->
  GetPaychan sender receiver id ctx = Some ((pych, true), ctx) ->
  IsValid (balance pych) = true ->
  ((exists ctx', ClosePaychan sender receiver id receiverAmount ctx
                 = Some (([], None), ctx'))
   <-> forall denom, AmountOf denom receiverAmount <= AmountOf denom (balance pych))
  /\ ((exists denom, AmountOf denom (balance pych) < AmountOf denom receiverAmount)
      -> ClosePaychan sender receiver id receiverAmount ctx
         = rejected (ErrInsufficientFunds (Coins_String (balance pych))) ctx).
Proof.
  intros Hs Hr Hid Hvalid Hpos Hget Hbal.
  apply GetPaychan_found_inv in Hget as (bz & Hlook & Hdec).
  assert (receiverAmount <> []) as Ha by (apply IsPositive_Forall in Hpos; tauto).
  rewrite ClosePaychan_validated by assumption.
  rewrite Hlook, Hdec. cbn zeta.
  pose proof (Minus_IsNotNegative_iff (balance pych) receiverAmount
                (IsValid_Sorted _ Hbal) (IsValid_Sorted _ Hvalid)) as Hiff.
  destruct (IsNotNegative (Minus (balance pych) receiverAmount)) eqn:Hnn.
  - split.
    + split; [intros _; apply Hiff; reflexivity | intros _; eauto].
    + intros (denom & Hover). pose proof (proj1 Hiff eq_refl denom). lia.
  - split; [| reflexivity].
    split; [intros (ctx' & Hcl); discriminate |].
    intros Hall. apply Hiff in Hall. discriminate.
Qed.

(** X8: the amount of [ClosePaychan] is checked as the one of
    [CreatePaychan] is, around the check of the id.  With both
    addresses given, an empty amount gives the invalid-coins error
    even when the id is negative; with an id that is not negative, an
    amount that lists a denomination twice, is not sorted, has a zero
    quantity or a quantity that is not strictly positive gives the
    invalid-coins error.  The context is returned as it was. *)
Theorem ClosePaychan_amount_validation
    (ctx : Context) (sender receiver : Address) (id : Z) (receiverAmount : Coins) :
  sender <> [] -> receiver <> [] ->
  (receiverAmount = [] ->
   ClosePaychan sender receiver id receiverAmount ctx
   = rejected (ErrInvalidCoins "") ctx)
  /\ (0 <= id ->
      duplicate_denoms receiverAmount \/ unsorted receiverAmount \/
      zero_quantity receiverAmount \/ not_strictly_positive receiverAmount ->
      ClosePaychan sender receiver id receiverAmount ctx
      = rejected (ErrInvalidCoins (Coins_String receiverAmount)) ctx).
Proof.
  intros Hs Hr. split.
  - intros ->. unfold ClosePaychan.
    rewrite (len_nonempty _ Hs), (len_nonempty _ Hr). reflexivity.
  - intros Hid Hbad. unfold ClosePaychan.
    rewrite (len_nonempty _ Hs), (len_nonempty _ Hr).
    destruct (len receiverAmount =? 0) eqn:Ha; [reflexivity |].
    destruct (Z.ltb_spec id 0) as [Hneg | _]; [lia |].
    destruct (IsValid receiverAmount) eqn:Hvalid; cbn [negb]; [| reflexivity].
    destruct (IsPositive receiverAmount) eqn:Hpos; cbn [negb]; [| reflexivity].
    exfalso.
    destruct (checks_canonical receiverAmount Hvalid Hpos)
      as (_ & Hdup & Hun & Hzero & Hnpos).
    tauto.
Qed.

End closing_more.

(* ===================================================================== *)
(** ** When creating succeeds                                            *)
(* ===================================================================== *)

Section creating_more.

Context {cdc : Codec}.

(** X9: a channel locks a positive amount the sender has.  After a
    successful [CreatePaychan] the amount is positive in some
    denomination, negative in none, and in every denomination no more
    than the sender held; what the sender holds afterwards is what he
    held less the amount, and is not negative. *)
Theorem CreatePaychan_never_overdraws
    (ctx ctx' : Context) (sender receiver : Address) (amount : Coins) (tags : Tags) :
  CreatePaychan sender receiver amount ctx = Some ((tags, None), ctx') ->
  (exists denom, 0 < AmountOf denom amount)
  /\ forall denom,
       0 <= AmountOf denom amount <= holds ctx sender denom
       /\ holds ctx' sender denom = holds ctx sender denom - AmountOf denom amount
       /\ 0 <= holds ctx' sender denom.
Proof.
  intros Hcreate.
  apply CreatePaychan_success_inv in Hcreate
    as (_ & _ & _ & Hpos & Hnn & bz & _ & ->).
  pose proof (IsPositive_IsNotNegative _ Hpos) as Hann.
  split.
  - apply IsPositive_Forall in Hpos as [Hne Hall].
    destruct amount as [| coin rest]; [congruence |].
    exists (Denom coin). cbn [AmountOf]. rewrite String.eqb_refl.
    apply Forall_cons in Hall as [Hc _].
    apply IsNotNegative_cons in Hann as [_ Hrest].
    pose proof (IsNotNegative_AmountOf (Denom coin) _ Hrest). lia.
  - intros denom.
    pose proof (IsNotNegative_AmountOf denom _ Hnn) as Hleft.
    pose proof (IsNotNegative_AmountOf denom _ Hann) as Hamt.
    rewrite AmountOf_Minus in Hleft.
    assert (holds
              (mkContext
                 (<[paychanKey sender receiver (nextId sender receiver) := bz]>
                    (KVStore ctx))
                 (debit sender amount (accounts ctx))) sender denom
            = holds ctx sender denom - AmountOf denom amount) as Hafter.
    { unfold holds, debit, bank.getCoins at 1. cbn [accounts].
      rewrite lookup_insert_eq. cbn [default]. apply AmountOf_Minus. }
    rewrite Hafter. unfold holds in *. lia.
Qed.

(** X10: when [CreatePaychan] succeeds, in terms of amounts.  For
    arguments that pass the validation, a sender whose coins are
    valid and a codec whose marshalling returns, the call succeeds
    when the sender holds the amount in every denomination, and
    returns the bank's insufficient-coins error, touching nothing,
    when he holds less in some denomination. *)
Theorem CreatePaychan_succeeds_iff (Hcdc : codec_marshals cdc)
    (ctx : Context) (sender receiver : Address) (amount : Coins) :
  sender <> [] -> receiver <> [] ->
  IsValid amount = true -> IsPositive amount = true ->
  IsValid (bank.getCoins (accounts ctx) sender) = true ->
  ((exists tags ctx', CreatePaychan sender receiver amount ctx
                      = Some ((tags, None), ctx'))
   <-> forall denom, AmountOf denom amount <= holds ctx sender denom)
  /\ ((exists denom, holds ctx sender denom < AmountOf denom amount) ->
      exists e, CreatePaychan sender receiver amount ctx = rejected e ctx
                /\ Code e = CodeInsufficientCoins).
Proof.
  intros Hs Hr Hvalid Hpos Hheld.
  rewrite CreatePaychan_validated by assumption.
  pose proof (Minus_IsNotNegative_iff (bank.getCoins (accounts ctx) sender) amount
                (IsValid_Sorted _ Hheld) (IsValid_Sorted _ Hvalid)) as Hiff.
  fold (holds ctx sender) in Hiff.
  destruct (IsNotNegative (Minus (bank.getCoins (accounts ctx) sender) amount)) eqn:Hnn.
  - destruct (Hcdc (mkPaychan sender receiver (nextId sender receiver) amount))
      as (bz & ->).
    split.
    + split; [intros _; apply Hiff; reflexivity | intros _; eauto].
    + intros (denom & Hless). pose proof (proj1 Hiff eq_refl denom).
      unfold holds in *. lia.
  - split.
    + split; [intros (t & c & Hc); discriminate |].
      intros Hall. apply Hiff in Hall. discriminate.
    + intros _. eexists. split; reflexivity.
Qed.

End creating_more.

(* ===================================================================== *)
(** ** The stores the keeper writes                                      *)
(* ===================================================================== *)

Section reachable_facts.

Context {cdc : Codec}.

Lemma CreatePaychan_store_written ctx sender receiver amount res ctx' :
  store_written ctx ->
  CreatePaychan sender receiver amount ctx = Some (res, ctx') ->
  store_written ctx'.
Proof.
  intros Hok Hcreate. destruct res as [tags [e |]].
  - apply CreatePaychan_error_unchanged in Hcreate as [-> _]. exact Hok.
  - apply CreatePaychan_success_inv in Hcreate
      as (Hs & Hr & Hvalid & Hpos & _ & bz & Henc & ->).
    intros key bz' Hlook. cbn [KVStore] in Hlook.
    apply lookup_insert_Some in Hlook as [[<- <-] | [_ Hlook]].
    + eexists. split; [exact Henc |]. split; [| reflexivity].
      repeat split; cbn; assumption || apply nextId_1.
    + apply Hok. exact Hlook.
Qed.

Lemma ClosePaychan_store_written ctx sender receiver id receiverAmount res ctx' :
  store_written ctx ->
  ClosePaychan sender receiver id receiverAmount ctx = Some (res, ctx') ->
  store_written ctx'.
Proof.
  intros Hok Hclose. destruct res as [tags [e |]].
  - apply ClosePaychan_error_unchanged in Hclose as [-> _]. exact Hok.
  - apply ClosePaychan_success_inv in Hclose
      as (_ & _ & _ & _ & _ & bz & pych & _ & _ & _ & _ & ->).
    intros key bz' Hlook. cbn [KVStore] in Hlook.
    apply lookup_delete_Some in Hlook as [_ Hlook]. apply Hok. exact Hlook.
Qed.

(** X11: what a reachable store holds.  Whatever calls were made since
    the empty store, with any codec, every value of the store is what
    a channel was marshalled to that names both its parties, has the
    id 1 and a valid and positive balance; and it is kept under the
    bytes of that sender, then of that receiver, then of the digit 1.
    No channel has another id. *)
Theorem reachable_store_written (ctx : Context) (key bz : bytes) :
  reachable ctx ->
  KVStore ctx !! key = Some bz ->
  exists pych,
    MustMarshalBinary pych = Some bz
    /\ types.sender pych <> [] /\ types.receiver pych <> []
    /\ types.id pych = 1
    /\ IsValid (balance pych) = true /\ IsPositive (balance pych) = true
    /\ key = types.sender pych ++ types.receiver pych ++ [x31].
Proof.
  intros Hreach. revert key bz.
  assert (store_written ctx) as Hok.
  { induction Hreach as [am
                        | ctx sender receiver amount res ctx' _ IH Hcreate
                        | ctx sender receiver id receiverAmount res ctx' _ IH Hclose
                        | ctx am _ IH].
    - intros key bz Hlook. cbn [KVStore] in Hlook.
      rewrite lookup_empty in Hlook. discriminate.
    - eapply CreatePaychan_store_written; eassumption.
    - eapply ClosePaychan_store_written; eassumption.
    - exact IH. }
  intros key bz Hlook.
  destruct (Hok key bz Hlook) as (pych & Henc & (H1 & H2 & H3 & H4 & H5) & Hkey).
  exists pych. repeat (split; [assumption |]).
  rewrite <- Hkey, H3. unfold paychanKey. rewrite <- app_assoc. reflexivity.
Qed.

End reachable_facts.

(* ===================================================================== *)
(** ** The total the accounts hold                                       *)
(* ===================================================================== *)

Section totals.

Context {cdc : Codec}.

Lemma supply_fold_comm (denom : string) (z1 z2 : Coins) (y : Z) :
  AmountOf denom z1 + (AmountOf denom z2 + y)
  = AmountOf denom z2 + (AmountOf denom z1 + y).
Proof. lia. Qed.

(** Writing the coins of one account changes the total by the
    difference. *)
Lemma supply_insert (denom : string) (am : gmap bytes Coins) (addr : Address) (coins : Coins) :
  supply denom (<[addr := coins]> am)
  = supply denom am - AmountOf denom (bank.getCoins am addr) + AmountOf denom coins.
Proof.
  unfold supply, bank.getCoins.
  destruct (am !! addr) as [old |] eqn:Hlook; cbn [default from_option Datatypes.id].
  - rewrite <- insert_delete_eq.
    rewrite map_fold_insert_L;
      [| intros; apply supply_fold_comm | apply lookup_delete_eq].
    rewrite (map_fold_delete_L _ _ addr old am);
      [| intros; apply supply_fold_comm | exact Hlook].
    cbn beta. lia.
  - rewrite map_fold_insert_L;
      [| intros; apply supply_fold_comm | exact Hlook].
    cbn beta. cbn [AmountOf]. lia.
Qed.

(** X12: creating a channel takes its amount, all of it and no more,
    out of the accounts.  After a successful [CreatePaychan] the total
    the accounts hold of each denomination is the total before less
    the amount of the channel. *)
Theorem CreatePaychan_total
    (ctx ctx' : Context) (sender receiver : Address) (amount : Coins)
    (tags : Tags) (denom : string) :
  CreatePaychan sender receiver amount ctx = Some ((tags, None), ctx') ->
  supply denom (accounts ctx')
  = supply denom (accounts ctx) - AmountOf denom amount.
Proof.
  intros Hcreate.
  apply CreatePaychan_success_inv in Hcreate
    as (_ & _ & _ & _ & _ & bz & _ & ->).
  cbn [accounts]. unfold debit. rewrite supply_insert, AmountOf_Minus. lia.
Qed.

End totals.

(* ===================================================================== *)
(** ** The properties at work on the scenarios                           *)
(* ===================================================================== *)

Lemma program_ctx1_reachable : reachable (cdc := amino.cdc) program.ctx1.
Proof.
  eapply (reachable_CreatePaychan scenario.ctx0 scenario.S scenario.R
            (scenario.gold 40)).
  - apply reachable_genesis.
  - vm_compute. reflexivity.
Qed.

Lemma overlapping_addresses_share_key_witness :
  dom (KVStore overlap.ctx2) = dom (KVStore overlap.ctx1)
  /\ is_Some (KVStore overlap.ctx2 !! paychanKey overlap.A overlap.BC 1).
Proof.
  destruct (overlapping_addresses_share_key (cdc := amino.cdc)
              overlap.ctx0 overlap.ctx1 overlap.ctx2 overlap.A [x62] overlap.C
              (overlap.gold 40) (overlap.gold 30)
              [("sender"%string, overlap.A)] [("sender"%string, overlap.AB)])
    as (_ & _ & _ & Hthere & Hdom).
  - vm_compute. reflexivity.
  - vm_compute. reflexivity.
  - split; [exact Hdom | exact Hthere].
Defined.


Lemma ClosePaychan_succeeds_iff_witness :
  ClosePaychan (cdc := amino.cdc) scenario.S scenario.R 1 (scenario.gold 15)
    program.ctx1
  = rejected (ErrInsufficientFunds "") program.ctx1.
Proof.
  destruct (ClosePaychan_succeeds_iff (cdc := amino.cdc) program.ctx1
              scenario.S scenario.R 1 (scenario.gold 15) zeroPaychan)
    as [_ Hfails];
    [discriminate | discriminate | lia | reflexivity | reflexivity
    | vm_compute; reflexivity | reflexivity |].
  apply Hfails. exists "gold"%string. reflexivity.
Defined.

Lemma ClosePaychan_amount_validation_witness :
  ClosePaychan (cdc := amino.cdc) scenario.S scenario.R 1
    [mkCoin "gold" 1; mkCoin "gold" 2] program.ctx1
  = rejected (ErrInvalidCoins "1gold,2gold") program.ctx1.
Proof.
  apply (ClosePaychan_amount_validation (cdc := amino.cdc));
    [discriminate | discriminate | lia |].
  left. unfold duplicate_denoms. cbn [map Denom].
  intros Hnd. apply NoDup_cons in Hnd as [Hin _]. apply Hin. left.
Defined.

Lemma CreatePaychan_never_overdraws_witness :
  0 <= AmountOf "gold" (scenario.gold 40) <= holds scenario.ctx0 scenario.S "gold"
  /\ holds program.ctx1 scenario.S "gold" = holds scenario.ctx0 scenario.S "gold" - 40.
Proof.
  destruct (CreatePaychan_never_overdraws (cdc := amino.cdc) scenario.ctx0
              program.ctx1 scenario.S scenario.R (scenario.gold 40)
              [("sender"%string, scenario.S)])
    as [_ Hall].
  - vm_compute. reflexivity.
  - destruct (Hall "gold"%string) as (Hle & Hafter & _). split; assumption.
Defined.

Lemma CreatePaychan_succeeds_iff_witness :
  exists tags ctx',
    CreatePaychan (cdc := amino.cdc) scenario.S scenario.R (scenario.gold 100)
      scenario.ctx0
    = Some ((tags, None), ctx').
Proof.
  destruct (CreatePaychan_succeeds_iff (cdc := amino.cdc) amino_marshals
              scenario.ctx0 scenario.S scenario.R (scenario.gold 100))
    as [[_ Hsucceeds] _]; try discriminate; try (vm_compute; reflexivity).
  apply Hsucceeds. intros denom. apply Z.le_refl.
Defined.

Lemma reachable_store_written_witness :
  exists pych,
    MustMarshalBinary (Codec := amino.cdc) pych = Some amino.struct_bytes
    /\ types.id pych = 1
    /\ paychanKey scenario.S scenario.R 1
       = types.sender pych ++ types.receiver pych ++ [x31].
Proof.
  destruct (reachable_store_written (cdc := amino.cdc) program.ctx1
              (paychanKey scenario.S scenario.R 1) amino.struct_bytes)
    as (pych & Henc & _ & _ & Hid & _ & _ & Hkey).
  - exact program_ctx1_reachable.
  - vm_compute. reflexivity.
  - exists pych. split; [exact Henc |]. split; [exact Hid | exact Hkey].
Defined.

Lemma CreatePaychan_total_witness :
  supply "gold" (accounts program.ctx1) = supply "gold" (accounts scenario.ctx0) - 40.
Proof.
  apply (CreatePaychan_total (cdc := amino.cdc) scenario.ctx0 program.ctx1
           scenario.S scenario.R (scenario.gold 40)
           [("sender"%string, scenario.S)] "gold").
  vm_compute. reflexivity.
Defined.
